(** * MTPcode: diffusion coefficients from WVTR-versus-thickness fits

    A shallow embedding of [MTPcode.py].  The script works on IEEE-754
    binary64 numbers (Python [float], NumPy [float64]); they are modelled
    by Rocq's primitive [float], whose operations are the same binary64
    operations, specified by [SpecFloat].  The arithmetic of the script is
    written once, over a small interface [Scalar], and read at two
    instances: [binary64] (what the script computes) and [exact] (the real
    numbers, the arithmetic in which the formulas of the script are
    stated). *)

From Stdlib Require Import ZArith List String Ascii Bool Lia Sorted Permutation.
From Stdlib Require Import Floats.
From Stdlib Require Import Reals Lra.
Import ListNotations.

Set Warnings "-inexact-float".

(** ** Scalars *)

Class Scalar (T : Type) : Type := {
  of_Z : Z -> T;
  add : T -> T -> T;
  sub : T -> T -> T;
  mul : T -> T -> T;
  div : T -> T -> T;
  absv : T -> T;
  sqrtv : T -> T;
  eqb : T -> T -> bool;
  ltb : T -> T -> bool
}.

Declare Scope scalar_scope.
Delimit Scope scalar_scope with sc.
Infix "+" := add : scalar_scope.
Infix "-" := sub : scalar_scope.
Infix "*" := mul : scalar_scope.
Infix "/" := div : scalar_scope.
Infix "=?" := eqb (at level 70, no associativity) : scalar_scope.
Infix "<?" := ltb (at level 70, no associativity) : scalar_scope.

(** An integer below [2^63] converts to binary64 as Python's [float(n)]
    does (exactly below [2^53]). *)
Definition float_of_Z (z : Z) : float :=
  match z with
  | Z0 => PrimFloat.zero
  | Zpos _ => PrimFloat.of_uint63 (Uint63.of_Z z)
  | Zneg p => PrimFloat.opp (PrimFloat.of_uint63 (Uint63.of_Z (Zpos p)))
  end.

#[export] Instance binary64 : Scalar float := {
  of_Z := float_of_Z;
  add := PrimFloat.add;
  sub := PrimFloat.sub;
  mul := PrimFloat.mul;
  div := PrimFloat.div;
  absv := PrimFloat.abs;
  sqrtv := PrimFloat.sqrt;
  eqb := PrimFloat.eqb;
  ltb := PrimFloat.ltb
}.

#[export] Instance exact : Scalar R := {
  of_Z := IZR;
  add := Rplus;
  sub := Rminus;
  mul := Rmult;
  div := Rdiv;
  absv := Rabs;
  sqrtv := sqrt;
  eqb := fun x y => if Req_dec_T x y then true else false;
  ltb := fun x y => if Rlt_dec x y then true else false
}.

(** ** Exceptions *)

Inductive exn : Type :=
| ZeroDivisionError
| ValueError (msg : string).

Inductive result (A : Type) : Type :=
| Return (a : A)
| Raise (e : exn).
Arguments Return {A} a.
Arguments Raise {A} e.

Definition bind {A B} (r : result A) (k : A -> result B) : result B :=
  match r with
  | Return a => k a
  | Raise e => Raise e
  end.

Section Program.

Context {T : Type} `{Scalar T}.
Local Open Scope scalar_scope.

(** A decimal literal [m e-k]: both [m] and [10^k] are exact in binary64
    for the literals of the script, so the correctly rounded quotient is
    the binary64 number the literal denotes. *)
Definition dec (m : Z) (k : Z) : T := of_Z m / of_Z (10 ^ k).

Definition is_nan (x : T) : bool := negb (x =? x).

(** ** Fixed physical constants (lines 8-12) *)

Definition Mw : T := dec 1801528 5.
Definition Ci : T := dec 11 1.
Definition Co : T := dec 55 2.
Definition Hp : T := dec 625 7.
Definition D_PLA_imperm : T := dec 1 15.

(** ** Python values

    [extract_D] is applied to whatever its caller passes.  A Python
    [float] and a NumPy [float64] carry the same binary64 number but
    divide differently: [float / float] raises [ZeroDivisionError] on a
    zero divisor, while a division in which a [float64] takes part is
    carried out by NumPy, which returns the IEEE result (an infinity or a
    NaN) and only emits a warning. *)

Inductive value : Type :=
| PyFloat (x : T)
| NpFloat64 (x : T).

Definition num (v : value) : T :=
  match v with PyFloat x | NpFloat64 x => x end.

Definition py_abs (v : value) : value :=
  match v with
  | PyFloat x => PyFloat (absv x)
  | NpFloat64 x => NpFloat64 (absv x)
  end.

Definition py_truediv (a b : value) : result value :=
  match a, b with
  | PyFloat x, PyFloat y =>
      if y =? of_Z 0 then Raise ZeroDivisionError else Return (PyFloat (x / y))
  | _, _ => Return (NpFloat64 (num a / num b))
  end.

(** ** Diffusion extraction (lines 41-42) *)

(** The number [Mw * (Ci - Co) / abs(slope)]. *)
Definition extract_D_num (slope : T) : T := Mw * (Ci - Co) / absv slope.

Definition extract_D (slope : value) : result value :=
  py_truediv (PyFloat (Mw * (Ci - Co))) (py_abs slope).

(** ** NumPy reductions used by the regression

    [np.amax], [np.amin] propagate a NaN; [np.mean] adds the elements and
    divides by their number.  NumPy adds fewer than eight elements from
    left to right (the series of the script have three or four). *)

Definition np_maximum (a b : T) : T :=
  if is_nan a then a else if b <? a then a else b.

Definition np_minimum (a b : T) : T :=
  if is_nan a then a else if a <? b then a else b.

(** A reduction starts from the first element; [linregress] reduces
    arrays of at least two elements only. *)
Definition reduce (f : T -> T -> T) (xs : list T) : T :=
  match xs with
  | [] => of_Z 0
  | x :: tl => fold_left f tl x
  end.

Definition amax := reduce np_maximum.
Definition amin := reduce np_minimum.
Definition np_sum := reduce add.

Definition size (xs : list T) : Z := Z.of_nat (List.length xs).

Definition mean (xs : list T) : T := np_sum xs / of_Z (size xs).

Fixpoint zip_mul (xs ys : list T) : list T :=
  match xs, ys with
  | x :: xs', y :: ys' => x * y :: zip_mul xs' ys'
  | _, _ => []
  end.

Definition dot (xs ys : list T) : T := np_sum (zip_mul xs ys).

Definition center (xs : list T) : list T :=
  let avg := mean xs in map (fun x => x - avg) xs.

(** [np.cov(x, y, bias=1)]: rows centred, [dot(X, X.T)], scaled by
    [1 / n].  The three distinct entries of the 2 x 2 matrix. *)
Definition cov_bias (xs ys : list T) : T * T * T :=
  let dx := center xs in
  let dy := center ys in
  let f := of_Z 1 / of_Z (size xs) in
  (dot dx dx * f, dot dx dy * f, dot dy dy * f).

(** ** [scipy.stats.linregress]

    The regression routine is SciPy's, not the script's.  It is modelled
    from the library's behaviour in the releases that run the routine
    under the axis and NaN policy of [scipy.stats].  The two samples are
    paired: they are first broadcast to a common length, which fails when
    the lengths differ and neither is 1.  A NaN in either sample, or
    fewer than two points, then gives a result made of NaN, with a
    warning only.  Otherwise the regression proper runs: its guards, the
    means, the biased covariance matrix, the correlation coefficient,
    then slope and intercept.  The p-value and the standard errors, which
    [fit_linear] unpacks and drops, are left out.  Slope and intercept
    are NumPy [float64] scalars; [rvalue] is the Python float [1.0] or
    [-1.0] on the clamped branches.  (Releases without the policy raise
    on empty samples and on samples of different lengths, and return
    [r = 0.0] at zero variance.) *)

Record LinregressResult : Type := {
  slope : value;
  intercept : value;
  rvalue : value
}.

(** The NaN of the arithmetic, [0 / 0]. *)
Definition NaN : T := of_Z 0 / of_Z 0.

(** Broadcasting of two one-dimensional arrays: a length of 1 stretches
    to the other length (also to 0). *)
Definition broadcast_arrays (x y : list T) : result (list T * list T) :=
  let n := List.length x in
  let m := List.length y in
  if (n =? m)%nat then Return (x, y)
  else if (n =? 1)%nat then Return (repeat (hd NaN x) m, y)
  else if (m =? 1)%nat then Return (x, repeat (hd NaN y) n)
  else Raise (ValueError "Array shapes are incompatible for broadcasting.").

Definition contains_nan (xs : list T) : bool := existsb is_nan xs.

Definition too_small (xs : list T) : bool := (size xs <=? 1)%Z.

Definition nan_result : LinregressResult :=
  {| slope := NpFloat64 NaN; intercept := NpFloat64 NaN; rvalue := NpFloat64 NaN |}.

(** The regression proper, on two samples of the same length. *)
Definition linregress_body (x y : list T) : result LinregressResult :=
  if ((size x =? 0) || (size y =? 0))%Z then
    Raise (ValueError "Inputs must not be empty.")
  else if (amax x =? amin x) && (1 <? size x)%Z then
    Raise (ValueError "Cannot calculate a linear regression if all x values are identical")
  else
    let n := size x in
    let xmean := mean x in
    let ymean := mean y in
    if negb (size y =? n)%Z then
      Raise (ValueError "all the input array dimensions except for the concatenation axis must match exactly")
    else
      let '(ssxm, ssxym, ssym) := cov_bias x y in
      let r :=
        if (ssxm =? of_Z 0) || (ssym =? of_Z 0) then
          NpFloat64 (if ssxym =? of_Z 0 then NaN else of_Z 0)
        else
          let r := ssxym / sqrtv (ssxm * ssym) in
          if of_Z 1 <? r then PyFloat (of_Z 1)
          else if r <? of_Z (-1) then PyFloat (of_Z (-1))
          else NpFloat64 r in
      let slope := ssxym / ssxm in
      let intercept := ymean - slope * xmean in
      Return {| slope := NpFloat64 slope;
                intercept := NpFloat64 intercept;
                rvalue := r |}.

Definition linregress (x y : list T) : result LinregressResult :=
  bind (broadcast_arrays x y) (fun '(x, y) =>
  if contains_nan x || contains_nan y then Return nan_result
  else if too_small x || too_small y then Return nan_result
  else linregress_body x y).

(** [r**2], computed as the product [r * r]; the square keeps the kind of
    [r]. *)
Definition py_square (v : value) : value :=
  match v with
  | PyFloat x => PyFloat (x * x)
  | NpFloat64 x => NpFloat64 (x * x)
  end.

(** ** Linear regression (lines 37-39) *)

Definition fit_linear (H_ WVTR : list T) : result (value * value * value) :=
  bind (linregress H_ WVTR) (fun res =>
  Return (slope res, intercept res, py_square (rvalue res))).

(** ** Experimental data (lines 19-32) *)

Definition micro (ns : list Z) : list T := map (fun n => of_Z n * dec 1 6) ns.
Definition ints (ns : list Z) : list T := map of_Z ns.

Definition H_1x := micro [57; 60; 62]%Z.
Definition WVTR_1x := ints [3363; 2232; 1922]%Z.

Definition H_2x := micro [72; 74; 79]%Z.
Definition WVTR_2x := ints [2395; 1673; 1513]%Z.

Definition H_3x := micro [73; 76; 79]%Z.
Definition WVTR_3x := ints [2177; 1739; 1470]%Z.

Definition H_PLA := micro [64; 79; 81; 83]%Z.
Definition WVTR_PLA := ints [1880; 452; 414; 212]%Z.

(** ** Fit lines (lines 67-76) *)

(** [np.linspace(start, stop, num)] with [num > 1]: [start + i * step],
    the last sample replaced by [stop]. *)
Definition linspace (start stop : T) (num : nat) : list T :=
  let step := (stop - start) / of_Z (Z.of_nat num - 1) in
  (map (fun i => of_Z (Z.of_nat i) * step + start) (seq 0 (num - 1)) ++ [stop])%list.

Definition Hfit_P := linspace (amin H_PLA) (amax H_PLA) 200.

(** One sample of the impermeable-PLA reference curve, for a diffusion
    coefficient [D] and a coating thickness [Hc]. *)
Definition imperm (D Hc : T) : T := Mw * (Ci - Co) / (Hp / D + Hc / D).

Definition WVTR_PLA_imperm := map (imperm D_PLA_imperm) Hfit_P.

End Program.

Arguments value T : clear implicits.
Arguments LinregressResult T : clear implicits.

(** ** Printed results (lines 57-62)

    [f"{x:.2e}"]: the decimal expansion of the binary64 number, correctly
    rounded (half to even) to three significant digits, with an exponent
    of at least two digits. *)

Local Open Scope Z_scope.

Definition round_half_even (n d : Z) : Z :=
  let q := n / d in
  match 2 * (n mod d) ?= d with
  | Lt => q
  | Eq => if Z.even q then q else q + 1
  | Gt => q + 1
  end.

(** [10^k <= n / d] *)
Definition le_pow10 (k n d : Z) : bool :=
  if 0 <=? k then 10 ^ k * d <=? n else d <=? n * 10 ^ (- k).

Fixpoint decimal_exponent (fuel : nat) (k n d : Z) : Z :=
  match fuel with
  | O => k
  | S fuel' => if le_pow10 k n d then k else decimal_exponent fuel' (k - 1) n d
  end.

(** Three significant digits [q] and the decimal exponent [k] of
    [m * 2^e]: the number printed is [q / 100 * 10^k]. *)
Definition sci2 (m : positive) (e : Z) : Z * Z :=
  let n := if 0 <=? e then Zpos m * 2 ^ e else Zpos m in
  let d := if 0 <=? e then 1 else 2 ^ (- e) in
  let k := decimal_exponent 800 400 n d in
  let q := if 0 <=? k - 2 then round_half_even n (d * 10 ^ (k - 2))
           else round_half_even (n * 10 ^ (2 - k)) d in
  if q =? 1000 then (100, k + 1) else (q, k).

Definition digit (d : Z) : string :=
  String (ascii_of_nat (48 + Z.to_nat d)) EmptyString.

Definition exponent_digits (k : Z) : string :=
  let a := Z.abs k in
  let sg := if k <? 0 then "-"%string else "+"%string in
  let d1 := digit (a / 100) in
  let d2 := digit (a / 10 mod 10) in
  let d3 := digit (a mod 10) in
  if a <? 100 then (sg ++ d2 ++ d3)%string else (sg ++ d1 ++ d2 ++ d3)%string.

Definition sign_string (s : bool) : string := if s then "-"%string else ""%string.

Definition format_2e (x : float) : string :=
  match Prim2SF x with
  | S754_nan => "nan"%string
  | S754_infinity s => (sign_string s ++ "inf")%string
  | S754_zero s => (sign_string s ++ "0.00e+00")%string
  | S754_finite s m e =>
      let '(q, k) := sci2 m e in
      let d1 := digit (q / 100) in
      let d2 := digit (q / 10 mod 10) in
      let d3 := digit (q mod 10) in
      (sign_string s ++ d1 ++ "." ++ d2 ++ d3 ++ "e" ++ exponent_digits k)%string
  end.

Definition coefficient_line (label : string) (x : value float) : string :=
  (label ++ " = " ++ format_2e (num x) ++ " m²/s")%string.

(** The text written to standard output by a run of the script: the four
    fits and the four extractions come first, so an exception in any of
    them leaves nothing printed.  (The figures are not modelled.) *)
Definition script : result (list string) :=
  bind (fit_linear H_1x WVTR_1x) (fun '(s1, i1, r1) =>
  bind (fit_linear H_2x WVTR_2x) (fun '(s2, i2, r2) =>
  bind (fit_linear H_3x WVTR_3x) (fun '(s3, i3, r3) =>
  bind (fit_linear H_PLA WVTR_PLA) (fun '(sP, iP, rP) =>
  bind (extract_D s1) (fun Ds_1x =>
  bind (extract_D s2) (fun Ds_2x =>
  bind (extract_D s3) (fun Ds_3x =>
  bind (extract_D sP) (fun D_PLA_perm =>
  Return
    [ "Extracted diffusion coefficients (linear regression):"%string;
      coefficient_line "Biopolymer-1 Ds (1×)" Ds_1x;
      coefficient_line "Biopolymer-1 Ds (2×)" Ds_2x;
      coefficient_line "Biopolymer-1 Ds (3×)" Ds_3x;
      coefficient_line "PLA Ds (permeable)" D_PLA_perm;
      coefficient_line "PLA Ds (impermeable)" (PyFloat D_PLA_imperm) ])))))))).

(** A line that reports a coefficient: [label = d.dde±dd m²/s], the
    number non-negative, its exponent of two or three digits. *)
Definition is_digit (c : ascii) : bool :=
  (48 <=? nat_of_ascii c)%nat && (nat_of_ascii c <=? 57)%nat.

Definition is_sci2 (s : string) : bool :=
  match list_ascii_of_string s with
  | d1 :: p :: d2 :: d3 :: e :: sg :: x1 :: x2 :: tl =>
      is_digit d1 && Ascii.eqb p "." && is_digit d2 && is_digit d3 &&
      Ascii.eqb e "e" && (Ascii.eqb sg "+" || Ascii.eqb sg "-") &&
      is_digit x1 && is_digit x2 &&
      match tl with
      | [] => true
      | [x3] => is_digit x3
      | _ => false
      end
  | _ => false
  end.

Definition unit_suffix : string := " m²/s".

Definition reports_coefficient (line : string) : bool :=
  match index 0 " = " line with
  | Some n =>
      let rest := substring (n + 3) (String.length line - n - 3) line in
      let k := (String.length rest - String.length unit_suffix)%nat in
      is_sci2 (substring 0 k rest) &&
      String.eqb (substring k (String.length unit_suffix) rest) unit_suffix
  | None => false
  end.

(** ** Rounding of a quotient, after [SpecFloat]

    Notions used to follow [SFdiv] and [binary_round_aux] through the
    division of the script. *)

(** [located N P m l]: the quotient [N / P] has integer part [m], and its
    fractional part is where [l] says. *)
Definition located (N P m : Z) (l : location) : Prop :=
  m * P <= N < (m + 1) * P /\
  match l with
  | loc_Exact => N = m * P
  | loc_Inexact Lt => m * P < N /\ 2 * N < (2 * m + 1) * P
  | loc_Inexact Eq => 2 * N = (2 * m + 1) * P
  | loc_Inexact Gt => (2 * m + 1) * P < 2 * N
  end.

(** [near N P m]: [m] is within one half of [N / P]. *)
Definition near (N P m : Z) : Prop :=
  (2 * m - 1) * P <= 2 * N <= (2 * m + 1) * P.

(** The second half of [binary_round_aux]: a rounded mantissa [m1] is
    renormalised when it has reached [2^53], then packed. *)
Definition finish (sx : bool) (m1 e : Z) : spec_float :=
  let '(mrs, e') := shr_fexp prec emax m1 e loc_Exact in
  match shr_m mrs with
  | Z0 => S754_zero sx
  | Zpos m => if e' <=? emax - prec then S754_finite sx m e' else S754_infinity sx
  | Zneg _ => S754_nan
  end.

Definition overflow_or (sx : bool) (m : positive) (e : Z) : spec_float :=
  if e <=? 971 then S754_finite sx m e else S754_infinity sx.

Definition pw2 (e : Z) : R := powerRZ 2 e.

(** The real number [m * 2^e]. *)
Definition F2R (m e : Z) : R := (IZR m * pw2 e)%R.

(** The exact quotient of two such numbers. *)
Definition quotient (Cm e1 My ey : Z) : R := (F2R Cm e1 / F2R My ey)%R.

(** [ordered r l]: [r x y] holds whenever [x] comes before [y] in [l]. *)
Fixpoint ordered (r : float -> float -> bool) (l : list float) : bool :=
  match l with
  | [] => true
  | x :: tl => forallb (r x) tl && ordered r tl
  end.

(** [unit_interval_fit x y]: the fit of the series succeeds and its R² is
    between 0 and 1. *)
Definition unit_interval_fit (x y : list float) : Prop :=
  exists s i r2, fit_linear x y = Return (s, i, r2) /\
    PrimFloat.leb 0 (num r2) = true /\ PrimFloat.leb (num r2) 1 = true.

(** [degenerate x y]: the lengths differ and neither is 1; or no value
    is NaN and [x] repeats one number at least twice, with a [y] of the
    same length or of length 1; or no value is NaN and [x] is a single
    number against at least two [y]. *)
Definition degenerate (x y : list float) : Prop :=
  (List.length x <> List.length y /\
   List.length x <> 1%nat /\ List.length y <> 1%nat) \/
  (exists a n, PrimFloat.eqb a a = true /\ x = repeat a (S (S n)) /\
     contains_nan y = false /\
     (List.length y = S (S n) \/ List.length y = 1%nat)) \/
  (exists a, PrimFloat.eqb a a = true /\ x = [a] /\
     contains_nan y = false /\ (2 <= List.length y)%nat).

(** A sequence of length 1 repeated to the length [n], any other
    sequence as it is: what broadcasting does to [y] against [n] values
    of [x]. *)
Definition stretched {T} (n : nat) (y : list T) : list T :=
  match y with
  | [c] => repeat c n
  | _ => y
  end.

(** The guards of the regression proper, all passed. *)
Definition accepted {T} `{Scalar T} (x y : list T) : bool :=
  negb ((size x =? 0) || (size y =? 0))%Z &&
  negb ((amax x =? amin x)%sc && (1 <? size x)%Z) &&
  (size y =? size x)%Z.

(** The biased variance of [x] and covariance of [x] and [y], as
    [linregress] takes them from [np.cov]. *)
Definition ssxm_of {T} `{Scalar T} (x : list T) : T :=
  (dot (center x) (center x) * (of_Z 1 / of_Z (size x)))%sc.

Definition ssxym_of {T} `{Scalar T} (x y : list T) : T :=
  (dot (center x) (center y) * (of_Z 1 / of_Z (size x)))%sc.

(** The sum of a list of real numbers. *)
Definition Rsum (l : list R) : R := fold_right Rplus 0%R l.

(** ** Fit lines (lines 44-47 and 67-75)

    For each coating regime the script samples [n] thicknesses between
    the smallest and the largest measured one, and evaluates the fitted
    line [slope * Hfit + inter] on them; the two arrays are handed to
    [plt.plot]. *)




(** ** Least squares, in exact arithmetic *)

(** The residuals [y - (a * x + b)] of a line on a series. *)
Fixpoint residuals (a b : R) (xs ys : list R) : list R :=
  match xs, ys with
  | x :: xs', y :: ys' => (y - (a * x + b))%R :: residuals a b xs' ys'
  | _, _ => []
  end.

(** The sum of the squared residuals. *)
Definition sse (a b : R) (xs ys : list R) : R :=
  Rsum (map (fun r => r * r)%R (residuals a b xs ys)).

(** The total sum of squares of [ys] about its mean. *)
Definition sst (ys : list R) : R :=
  Rsum (map (fun y => (y - mean ys) * (y - mean ys))%R ys).

(** The biased variance of [y], as [linregress] takes it from [np.cov]. *)
Definition ssym_of {T} `{Scalar T} (x y : list T) : T :=
  (dot (center y) (center y) * (of_Z 1 / of_Z (size x)))%sc.

(** The correlation coefficient as [linregress] returns it. *)
Definition rvalue_of {T} `{Scalar T} (x y : list T) : value T :=
  if ((ssxm_of x =? of_Z 0) || (ssym_of x y =? of_Z 0))%sc then
    NpFloat64 (if (ssxym_of x y =? of_Z 0)%sc then NaN else of_Z 0)
  else
    let r := (ssxym_of x y / sqrtv (ssxm_of x * ssym_of x y))%sc in
    if (of_Z 1 <? r)%sc then PyFloat (of_Z 1)
    else if (r <? of_Z (-1))%sc then PyFloat (of_Z (-1))
    else NpFloat64 r.

(** The real number a binary64 number denotes ([0] for the infinities and
    NaN). *)
Definition float_value (x : float) : R :=
  match Prim2SF x with
  | S754_finite s m e => ((if s then -1 else 1) * F2R (Zpos m) e)%R
  | _ => 0%R
  end.

(** [at_most_one r]: the binary64 number [r] is between 0 and 1. *)
Definition at_most_one (r : spec_float) : Prop :=
  SFleb (S754_zero false) r = true /\
  SFleb r (S754_finite false 4503599627370496 (-52)) = true.

(** * Properties *)

(** ** Binary digits and validity *)

Lemma digits2_pos_size p : digits2_pos p = Pos.size p.
Proof. induction p; simpl; congruence. Qed.

Lemma digits2_pos_log2 p : Zpos (digits2_pos p) = Z.log2 (Zpos p) + 1.
Proof.
  rewrite digits2_pos_size.
  destruct p; simpl; rewrite ?Pos2Z.inj_succ; lia.
Qed.

Lemma digits2_pos_bounds p :
  2 ^ (Zpos (digits2_pos p) - 1) <= Zpos p < 2 ^ Zpos (digits2_pos p).
Proof.
  rewrite digits2_pos_log2.
  replace (Z.log2 (Zpos p) + 1 - 1) with (Z.log2 (Zpos p)) by lia.
  apply (Z.log2_spec (Zpos p)). lia.
Qed.

Lemma digits2_pos_unique p n :
  2 ^ (n - 1) <= Zpos p < 2 ^ n -> Zpos (digits2_pos p) = n.
Proof.
  intros Hb. rewrite digits2_pos_log2.
  assert (0 < n).
  { destruct (Z_lt_le_dec 0 n) as [|Hn]; [assumption|].
    assert (2 ^ n <= 1).
    { destruct (Z.eq_dec n 0) as [->|]; [simpl; lia|].
      rewrite Z.pow_neg_r by lia. lia. }
    lia. }
  rewrite (Z.log2_unique (Zpos p) (n - 1)); try lia.
  replace (Z.succ (n - 1)) with n by lia. exact Hb.
Qed.

(** Validity of a binary64 mantissa-exponent pair. *)
Lemma bounded_inv m e :
  SpecFloat.bounded prec emax m e = true ->
  Zpos (digits2_pos m) <= 53 /\ -1074 <= e <= 971 /\
  (e = -1074 \/ Zpos (digits2_pos m) = 53).
Proof.
  unfold SpecFloat.bounded, canonical_mantissa, fexp, SpecFloat.emin, prec, emax.
  intros Hb. apply andb_prop in Hb as [Hc He].
  apply Z.eqb_eq in Hc. apply Z.leb_le in He. lia.
Qed.

(** ** Shifts, locations and rounding to nearest even *)

Lemma shr_1_pos m r s :
  0 < m -> shr_1 {| shr_m := m; shr_r := r; shr_s := s |} =
           {| shr_m := m / 2; shr_r := Z.odd m; shr_s := r || s |}.
Proof.
  intros Hm. destruct m as [|p|p]; try lia.
  destruct p as [p|p|]; unfold shr_1; cbn [Z.odd].
  - replace (Z.pos p~1 / 2) with (Z.pos p); [reflexivity|].
    apply Z.div_unique with 1; lia.
  - replace (Z.pos p~0 / 2) with (Z.pos p); [reflexivity|].
    apply Z.div_unique with 0; lia.
  - reflexivity.
Qed.

Lemma loc_of_shr_record_of_loc m l :
  loc_of_shr_record (shr_record_of_loc m l) = l.
Proof. destruct l as [|[]]; reflexivity. Qed.

Lemma shr_m_record_of_loc m l : shr_m (shr_record_of_loc m l) = m.
Proof. destruct l as [|[]]; reflexivity. Qed.

Lemma shr_record_of_loc_of m r s :
  shr_record_of_loc m (loc_of_shr_record {| shr_m := m; shr_r := r; shr_s := s |}) =
  {| shr_m := m; shr_r := r; shr_s := s |}.
Proof. destruct r, s; reflexivity. Qed.

Lemma Zdigits2_53 q : 2 ^ 52 <= q < 2 ^ 53 -> Zdigits2 q = 53.
Proof.
  intros Hq. destruct q as [|p|p]; try lia.
  unfold Zdigits2. apply digits2_pos_unique. exact Hq.
Qed.

Lemma Zdigits2_54 q : 2 ^ 53 <= q < 2 ^ 54 -> Zdigits2 q = 54.
Proof.
  intros Hq. destruct q as [|p|p]; try lia.
  unfold Zdigits2. apply digits2_pos_unique. exact Hq.
Qed.

Lemma shr_fexp_53 q e l :
  2 ^ 52 <= q < 2 ^ 53 -> -1074 <= e ->
  shr_fexp prec emax q e l = (shr_record_of_loc q l, e).
Proof.
  intros Hq He. unfold shr_fexp. rewrite (Zdigits2_53 q Hq).
  unfold fexp, SpecFloat.emin, prec, emax.
  replace (Z.max (53 + e - 53) (3 - 1024 - 53) - e) with 0 by lia.
  reflexivity.
Qed.

Lemma shr_fexp_54 q e l :
  2 ^ 53 <= q < 2 ^ 54 -> -1075 <= e ->
  shr_fexp prec emax q e l = (shr_1 (shr_record_of_loc q l), e + 1).
Proof.
  intros Hq He. unfold shr_fexp. rewrite (Zdigits2_54 q Hq).
  unfold fexp, SpecFloat.emin, prec, emax.
  replace (Z.max (54 + e - 53) (3 - 1024 - 53) - e) with 1 by lia.
  reflexivity.
Qed.



Lemma new_location_located P q r :
  0 < P -> 0 <= r < P -> located (q * P + r) P q (new_location P r).
Proof.
  intros HP Hr. unfold located. split; [nia|].
  unfold new_location, new_location_even, new_location_odd.
  destruct (Z.even P) eqn:Hev.
  - destruct (Z.eqb_spec r 0) as [->|Hr0]; [lia|].
    destruct (Z.compare_spec (2 * r) P); nia.
  - destruct (Z.eqb_spec r 0) as [->|Hr0]; [lia|].
    assert (Hodd : Z.odd P = true) by (rewrite <- Z.negb_even, Hev; reflexivity).
    apply Z.odd_spec in Hodd. destruct Hodd as [k Hk].
    destruct (Z.compare_spec (2 * r + 1) P); nia.
Qed.

Lemma shr_1_located N P q l :
  0 < P -> 0 < q -> located N P q l ->
  located N (2 * P) (q / 2)
    (loc_of_shr_record (shr_1 (shr_record_of_loc q l))).
Proof.
  intros HP Hq [Hfl Hl].
  assert (Hdiv : q = 2 * (q / 2) + (if Z.odd q then 1 else 0)).
  { rewrite (Z.div_mod q 2) at 1 by lia. rewrite Zmod_odd. reflexivity. }
  set (h := q / 2) in *.
  unfold located.
  destruct l as [|[]]; unfold shr_record_of_loc; rewrite shr_1_pos by assumption;
    fold h; destruct (Z.odd q); cbn [orb loc_of_shr_record]; nia.
Qed.

Lemma round_nearest_even_near N P m l :
  0 < P -> located N P m l ->
  let m1 := round_nearest_even m l in
  near N P m1 /\ m <= m1 <= m + 1 /\ (m1 = m -> m * P <= N).
Proof.
  intros HP [Hfl Hl]. unfold near, round_nearest_even.
  destruct l as [|[]]; try destruct (Z.even m); cbn zeta; nia.
Qed.



Lemma round_stage sx N P m0 l0 e :
  0 < P -> located N P m0 l0 -> 2 ^ 52 <= m0 < 2 ^ 53 -> -1074 <= e ->
  exists m j, 0 <= j <= 1 /\ 2 ^ 52 <= Zpos m < 2 ^ 53 /\
    near N (P * 2 ^ j) (Zpos m) /\ (2 ^ 54 - 1) * (P * 2 ^ j) <= 4 * N /\
    finish sx (round_nearest_even m0 l0) e = overflow_or sx m (e + j).
Proof.
  intros HP Hloc Hm0 He.
  destruct (round_nearest_even_near N P m0 l0 HP Hloc) as (Hnear & Hrg & Hlow).
  set (m1 := round_nearest_even m0 l0) in *.
  unfold finish, near in *.
  destruct (Z_lt_le_dec m1 (2 ^ 53)) as [Hlt|Hge].
  - rewrite shr_fexp_53 by lia. cbn [shr_record_of_loc shr_m].
    destruct m1 as [|p|p]; try lia.
    exists p, 0. rewrite Z.add_0_r, Z.pow_0_r, Z.mul_1_r.
    repeat split; try lia.
    destruct (Z.eq_dec (Zpos p) m0); nia.
  - assert (Hm1 : m1 = 2 ^ 53) by lia.
    rewrite shr_fexp_54 by lia. rewrite Hm1.
    exists (4503599627370496)%positive, 1.
    change (2 ^ 1) with 2.
    repeat split; try lia.
Qed.

Lemma binary_round_aux_finish sx q e l :
  binary_round_aux prec emax sx q e l =
  let '(mrs, e') := shr_fexp prec emax q e l in
  finish sx (round_nearest_even (shr_m mrs) (loc_of_shr_record mrs)) e'.
Proof. unfold binary_round_aux, finish. destruct (shr_fexp prec emax q e l). reflexivity. Qed.

(** Rounding a located quotient whose integer part has 53 or 54 bits. *)
Lemma binary_round_aux_near sx N P q e l :
  0 < P -> located N P q l -> 2 ^ 52 <= q < 2 ^ 54 -> -1074 <= e ->
  exists m j, 0 <= j <= 2 /\ 2 ^ 52 <= Zpos m < 2 ^ 53 /\
    near N (P * 2 ^ j) (Zpos m) /\ (2 ^ 54 - 1) * (P * 2 ^ j) <= 4 * N /\
    binary_round_aux prec emax sx q e l = overflow_or sx m (e + j).
Proof.
  intros HP Hloc Hq He. rewrite binary_round_aux_finish.
  destruct (Z_lt_le_dec q (2 ^ 53)) as [Hlt|Hge].
  - rewrite shr_fexp_53 by lia.
    rewrite shr_m_record_of_loc, loc_of_shr_record_of_loc.
    destruct (round_stage sx N P q l e HP Hloc) as (m & j & Hj & Hm & Hn & Hs & Hf);
      try lia.
    exists m, j. repeat split; try lia; try apply Hn. exact Hf.
  - rewrite shr_fexp_54 by lia.
    pose proof (shr_1_located N P q l HP ltac:(lia) Hloc) as Hloc'.
    assert (Hh : 2 ^ 52 <= q / 2 < 2 ^ 53).
    { split; [apply Z.div_le_lower_bound|apply Z.div_lt_upper_bound]; lia. }
    assert (Hm' : shr_m (shr_1 (shr_record_of_loc q l)) = q / 2).
    { destruct l as [|[]]; unfold shr_record_of_loc; rewrite shr_1_pos by lia;
        reflexivity. }
    rewrite Hm'.
    destruct (round_stage sx N (2 * P) (q / 2) _ (e + 1) ltac:(lia) Hloc' Hh)
      as (m & j & Hj & Hm & Hn & Hs & Hf); try lia.
    exists m, (j + 1). rewrite Z.pow_add_r by lia. change (2 ^ 1) with 2.
    replace (P * (2 ^ j * 2)) with (2 * P * 2 ^ j) by ring.
    replace (e + (j + 1)) with (e + 1 + j) by ring.
    repeat split; try lia; try apply Hn. exact Hf.
Qed.

(** ** Division of a binary64 number of at least 4 by a finite one *)

Section DivideNormal.

Variables (C : positive) (e1 : Z).
Hypothesis C_digits : Zpos (digits2_pos C) = 53.
Hypothesis e1_low : -50 <= e1.

Lemma SFdiv_core_normal My ey :
  SpecFloat.bounded prec emax My ey = true ->
  let d := Zpos (digits2_pos My) in
  exists q r,
    SFdiv_core_binary prec emax (Zpos C) e1 (Zpos My) ey =
      (q, e1 - ey - d, new_location (Zpos My) r) /\
    Zpos C * 2 ^ d = q * Zpos My + r /\ 0 <= r < Zpos My /\
    2 ^ 52 <= q < 2 ^ 54.
Proof.
  intros Hb d. destruct (bounded_inv My ey Hb) as (Hd & He & Hor).
  fold d in Hd, Hor.
  unfold SFdiv_core_binary. cbn [Zdigits2]. rewrite C_digits. fold d.
  assert (Hmin : Z.min (fexp prec emax (53 + e1 - (d + ey))) (e1 - ey) = e1 - ey - d).
  { unfold fexp, SpecFloat.emin, prec, emax. subst d. lia. }
  rewrite Hmin.
  replace (e1 - ey - (e1 - ey - d)) with d by ring.
  unfold d at 1. rewrite Z.shiftl_mul_pow2 by lia. fold d.
  pose proof (Z_div_mod (Zpos C * 2 ^ d) (Zpos My) ltac:(lia)) as Hdm.
  destruct (Z.div_eucl (Zpos C * 2 ^ d) (Zpos My)) as [q r].
  destruct Hdm as [Heq Hr].
  exists q, r. split; [reflexivity|]. split; [lia|]. split; [exact Hr|].
  pose proof (digits2_pos_bounds C) as HC. rewrite C_digits in HC.
  pose proof (digits2_pos_bounds My) as HM. fold d in HM.
  assert (Hpow : 2 ^ d = 2 * 2 ^ (d - 1)).
  { rewrite <- Z.pow_succ_r by lia. f_equal. lia. }
  change (53 - 1) with 52 in HC.
  set (D := 2 ^ (d - 1)) in *. rewrite Hpow in *.
  nia.
Qed.

Lemma SFdiv_normal sx sy My ey :
  SpecFloat.bounded prec emax My ey = true ->
  let d := Zpos (digits2_pos My) in
  exists m j, 0 <= j <= 2 /\ 2 ^ 52 <= Zpos m < 2 ^ 53 /\
    near (Zpos C * 2 ^ d) (Zpos My * 2 ^ j) (Zpos m) /\
    (2 ^ 54 - 1) * (Zpos My * 2 ^ j) <= 4 * (Zpos C * 2 ^ d) /\
    SFdiv prec emax (S754_finite sx C e1) (S754_finite sy My ey) =
      overflow_or (xorb sx sy) m (e1 - ey - d + j).
Proof.
  intros Hb d.
  destruct (SFdiv_core_normal My ey Hb) as (q & r & Hcore & Heq & Hr & Hq).
  fold d in Hcore, Heq.
  destruct (bounded_inv My ey Hb) as (Hd & He & Hor). fold d in Hd, Hor.
  unfold SFdiv. rewrite Hcore. rewrite Heq.
  apply binary_round_aux_near; try lia.
  apply new_location_located; lia.
Qed.

End DivideNormal.

(** ** Real values *)

Local Open Scope R_scope.

Lemma pw2_pos e : 0 < pw2 e.
Proof. apply powerRZ_lt. lra. Qed.

Lemma pw2_add a b : pw2 (a + b) = pw2 a * pw2 b.
Proof. apply powerRZ_add. lra. Qed.

Lemma pw2_opp a : pw2 (- a) = / pw2 a.
Proof. apply powerRZ_neg'. Qed.

Lemma pw2_IZR n : (0 <= n)%Z -> pw2 n = IZR (2 ^ n).
Proof.
  intros Hn. destruct n as [|p|p]; try lia.
  - reflexivity.
  - unfold pw2. symmetry. apply Zpower_pos_powerRZ.
Qed.

Lemma pw2_succ e : pw2 (e + 1) = 2 * pw2 e.
Proof. rewrite pw2_add. change (pw2 1) with (2 * 1). ring. Qed.

Lemma pw2_le a b : (a <= b)%Z -> pw2 a <= pw2 b.
Proof.
  intros Hab. replace b with (a + (b - a))%Z by ring. rewrite pw2_add.
  assert (1 <= pw2 (b - a)).
  { rewrite pw2_IZR by lia. apply IZR_le.
    assert (0 < 2 ^ (b - a))%Z by (apply Z.pow_pos_nonneg; lia). lia. }
  pose proof (pw2_pos a). nra.
Qed.

Lemma pw2_lt a b : (a < b)%Z -> 2 * pw2 a <= pw2 b.
Proof.
  intros Hab. rewrite <- pw2_succ. apply pw2_le. lia.
Qed.


Lemma F2R_pos m e : 0 < F2R (Zpos m) e.
Proof.
  unfold F2R. apply Rmult_lt_0_compat; [apply IZR_lt; lia|apply pw2_pos].
Qed.

(** An integer inequality between the scaled numerator and denominator,
    read on the exact quotient. *)
Section Scale.

Variables (Cm My d j e1 ey : Z).
Hypothesis My_pos : (0 < My)%Z.
Hypothesis d_nonneg : (0 <= d)%Z.
Hypothesis j_nonneg : (0 <= j)%Z.

Lemma quotient_scale :
  exists k, 0 < k /\ pw2 (e1 - ey - d + j) = k * pw2 j * IZR My /\
    quotient Cm e1 My ey = k * (IZR Cm * pw2 d).
Proof.
  assert (HM : 0 < IZR My) by (apply IZR_lt; exact My_pos).
  pose proof (pw2_pos e1) as H1. pose proof (pw2_pos ey) as H2.
  pose proof (pw2_pos d) as H3.
  exists (pw2 e1 * / pw2 ey * / pw2 d * / IZR My). split; [|split].
  - repeat apply Rmult_lt_0_compat; try apply Rinv_0_lt_compat; assumption.
  - replace (e1 - ey - d + j)%Z with (e1 + (- ey) + (- d) + j)%Z by ring.
    rewrite !pw2_add, !pw2_opp. field. repeat split; apply Rgt_not_eq; assumption.
  - unfold quotient, F2R. field. repeat split; apply Rgt_not_eq; assumption.
Qed.

Lemma scale_le A B :
  (A * (My * 2 ^ j) <= B * (Cm * 2 ^ d))%Z ->
  IZR A * pw2 (e1 - ey - d + j) <= IZR B * quotient Cm e1 My ey.
Proof.
  intros Hz. apply IZR_le in Hz. rewrite !mult_IZR in Hz.
  rewrite <- !pw2_IZR in Hz by assumption.
  destruct quotient_scale as (k & Hk & HE & Hv). rewrite HE, Hv. nra.
Qed.

Lemma scale_ge A B :
  (B * (Cm * 2 ^ d) <= A * (My * 2 ^ j))%Z ->
  IZR B * quotient Cm e1 My ey <= IZR A * pw2 (e1 - ey - d + j).
Proof.
  intros Hz. apply IZR_le in Hz. rewrite !mult_IZR in Hz.
  rewrite <- !pw2_IZR in Hz by assumption.
  destruct quotient_scale as (k & Hk & HE & Hv). rewrite HE, Hv. nra.
Qed.

End Scale.

(** Two enclosed quotients: the larger one is not rounded to the smaller
    mantissa-exponent pair. *)
Lemma enclosure_monotone (va vb : R) (ma mb Ea Eb : Z) :
  vb < va ->
  (2 ^ 52 <= ma < 2 ^ 53)%Z -> (2 ^ 52 <= mb < 2 ^ 53)%Z ->
  2 * va <= IZR (2 * ma + 1) * pw2 Ea ->
  IZR (2 * mb - 1) * pw2 Eb <= 2 * vb ->
  IZR (2 ^ 54 - 1) * pw2 Eb <= 4 * vb ->
  (Eb < Ea)%Z \/ (Eb = Ea /\ (mb <= ma)%Z).
Proof.
  intros Hv Hma Hmb Hup Hlo Hstrong.
  pose proof (pw2_pos Ea) as HEa. pose proof (pw2_pos Eb) as HEb.
  destruct (Z.lt_trichotomy Eb Ea) as [Hlt|[Heq|Hgt]].
  - left. exact Hlt.
  - right. split; [exact Heq|]. subst Eb.
    destruct (Z_le_gt_dec mb ma) as [Hle|Hgt]; [exact Hle|exfalso].
    assert (Hz : IZR (2 * ma + 1) <= IZR (2 * mb - 1)) by (apply IZR_le; lia).
    nra.
  - exfalso. pose proof (pw2_lt Ea Eb Hgt) as Hpw.
    assert (Hz : IZR (2 * ma + 1) <= IZR (2 ^ 54 - 1)) by (apply IZR_le; lia).
    assert (Hp : 0 < IZR (2 ^ 54 - 1)) by (apply IZR_lt; lia).
    nra.
Qed.

(** The order of two valid positive finite numbers is the order of the
    reals they denote. *)
Lemma SFltb_finite_real Ma ea Mb eb :
  SpecFloat.bounded prec emax Ma ea = true ->
  SpecFloat.bounded prec emax Mb eb = true ->
  SFltb (S754_finite false Ma ea) (S754_finite false Mb eb) = true ->
  F2R (Zpos Ma) ea < F2R (Zpos Mb) eb.
Proof.
  intros Ha Hb Hlt.
  destruct (bounded_inv Ma ea Ha) as (Hda & Hea & _).
  destruct (bounded_inv Mb eb Hb) as (Hdb & Heb & Hnb).
  unfold SFltb, SFcompare in Hlt. unfold F2R.
  destruct (Z.compare_spec ea eb) as [Heq|Hlt'|Hgt]; try discriminate.
  - subst eb. pose proof (pw2_pos ea).
    assert (Hm : (Zpos Ma < Zpos Mb)%Z).
    { destruct (Pos.compare_cont Eq Ma Mb) eqn:Hc; try discriminate.
      apply (proj1 (Pos.compare_lt_iff Ma Mb)) in Hc. lia. }
    apply IZR_lt in Hm. apply Rmult_lt_compat_r; assumption.
  - assert (Hdb' : Zpos (digits2_pos Mb) = 53%Z) by lia.
    pose proof (digits2_pos_bounds Mb) as HMb. rewrite Hdb' in HMb.
    pose proof (digits2_pos_bounds Ma) as HMa.
    assert (HMa' : (Zpos Ma < 2 ^ 53)%Z).
    { eapply Z.lt_le_trans; [apply HMa|]. apply Z.pow_le_mono_r; lia. }
    assert (H1 : IZR (Zpos Ma) < IZR (2 ^ 53)) by (apply IZR_lt; exact HMa').
    assert (H2 : IZR (2 ^ 52) <= IZR (Zpos Mb)) by (apply IZR_le; lia).
    change (IZR (2 ^ 53)) with (2 * IZR (2 ^ 52)) in H1.
    assert (H0 : 0 < IZR (2 ^ 52)) by (apply IZR_lt; lia).
    pose proof (pw2_lt ea eb Hlt') as Hpw. pose proof (pw2_pos ea).
    nra.
Qed.

Section DivideNormalOrder.

Variables (C : positive) (e1 : Z).
Hypothesis C_digits : Zpos (digits2_pos C) = 53%Z.
Hypothesis e1_low : (-50 <= e1)%Z.

(** The quotient by a finite number is a positive normal number or
    [+infinity]. *)
Lemma SFdiv_normal_positive sy My ey :
  SpecFloat.bounded prec emax My ey = true ->
  SFltb (S754_zero false) (SFdiv prec emax (S754_finite false C e1) (S754_finite sy My ey)) = negb sy.
Proof.
  intros Hb.
  destruct (SFdiv_normal C e1 C_digits e1_low false sy My ey Hb)
    as (m & j & _ & _ & _ & _ & Hdiv).
  rewrite Hdiv. unfold overflow_or.
  destruct (_ <=? 971)%Z, sy; reflexivity.
Qed.

(** Dividing by more gives no more. *)
Lemma SFdiv_normal_antitone Ma ea Mb eb :
  SpecFloat.bounded prec emax Ma ea = true ->
  SpecFloat.bounded prec emax Mb eb = true ->
  SFltb (S754_finite false Ma ea) (S754_finite false Mb eb) = true ->
  SFleb (SFdiv prec emax (S754_finite false C e1) (S754_finite false Mb eb))
        (SFdiv prec emax (S754_finite false C e1) (S754_finite false Ma ea)) = true.
Proof.
  intros Ha Hb Hlt.
  pose proof (SFltb_finite_real Ma ea Mb eb Ha Hb Hlt) as Hy.
  destruct (SFdiv_normal C e1 C_digits e1_low false false Ma ea Ha)
    as (ma & ja & Hja & Hma & [Hloa Hhia] & Hsa & Hdiva).
  destruct (SFdiv_normal C e1 C_digits e1_low false false Mb eb Hb)
    as (mb & jb & Hjb & Hmb & [Hlob Hhib] & Hsb & Hdivb).
  rewrite Hdiva, Hdivb.
  cbv zeta in *.
  set (da := Zpos (digits2_pos Ma)) in *. set (db := Zpos (digits2_pos Mb)) in *.
  assert (Hda : (0 <= da)%Z) by (unfold da; lia).
  assert (Hdb : (0 <= db)%Z) by (unfold db; lia).
  set (va := quotient (Zpos C) e1 (Zpos Ma) ea).
  set (vb := quotient (Zpos C) e1 (Zpos Mb) eb).
  assert (Hv : vb < va).
  { unfold va, vb, quotient. pose proof (F2R_pos C e1). pose proof (F2R_pos Ma ea).
    pose proof (F2R_pos Mb eb).
    apply Rmult_lt_compat_l; [assumption|].
    apply Rinv_lt_contravar; [apply Rmult_lt_0_compat; assumption|assumption]. }
  assert (Hup : 2 * va <= IZR (2 * Zpos ma + 1) * pw2 (e1 - ea - da + ja)).
  { apply (scale_ge (Zpos C) (Zpos Ma) da ja e1 ea); lia. }
  assert (Hlo : IZR (2 * Zpos mb - 1) * pw2 (e1 - eb - db + jb) <= 2 * vb).
  { apply (scale_le (Zpos C) (Zpos Mb) db jb e1 eb); lia. }
  assert (Hst : IZR (2 ^ 54 - 1) * pw2 (e1 - eb - db + jb) <= 4 * vb).
  { apply (scale_le (Zpos C) (Zpos Mb) db jb e1 eb); lia. }
  pose proof (enclosure_monotone va vb (Zpos ma) (Zpos mb) _ _ Hv Hma Hmb Hup Hlo Hst)
    as Hord.
  unfold overflow_or, xorb.
  set (Ea := (e1 - ea - da + ja)%Z) in *. set (Eb := (e1 - eb - db + jb)%Z) in *.
  destruct (Z.leb_spec Ea 971) as [HEa|HEa].
  - destruct (Z.leb_spec Eb 971) as [HEb|HEb]; [|lia].
    unfold SFleb, SFcompare.
    destruct Hord as [Hlt'|[Heq Hle]].
    + apply Z.compare_lt_iff in Hlt'. rewrite Hlt'. reflexivity.
    + rewrite Heq, Z.compare_refl.
      change (Pos.compare_cont Eq mb ma) with (Pos.compare mb ma).
      destruct (Pos.compare_spec mb ma); try reflexivity. lia.
  - destruct (Eb <=? 971)%Z; reflexivity.
Qed.

End DivideNormalOrder.

(** ** Binary64 numbers through [Prim2SF] *)

Local Open Scope float_scope.

Lemma SFcompare_refl_finite s m e :
  SFcompare (S754_finite s m e) (S754_finite s m e) = Some Eq.
Proof.
  unfold SFcompare. rewrite Z.compare_refl.
  change (Pos.compare_cont Eq m m) with (Pos.compare m m).
  rewrite Pos.compare_refl. destruct s; reflexivity.
Qed.

Lemma eqb_zero_SF s :
  (s =? 0) = match Prim2SF s with S754_zero _ => true | _ => false end.
Proof.
  rewrite eqb_spec. change (Prim2SF 0) with (S754_zero false).
  destruct (Prim2SF s) as [[]|[]| |[] m e]; reflexivity.
Qed.

Lemma is_finite_SF s :
  is_finite s =
  match Prim2SF s with S754_nan | S754_infinity _ => false | _ => true end.
Proof.
  unfold is_finite, PrimFloat.is_nan, is_infinity.
  rewrite !eqb_spec, abs_spec. change (Prim2SF infinity) with (S754_infinity false).
  destruct (Prim2SF s) as [[]|[]| |sg m e]; try reflexivity.
  unfold SFeqb. rewrite SFcompare_refl_finite. reflexivity.
Qed.

Lemma abs_opp s : abs (- s) = abs s.
Proof.
  apply Prim2SF_inj. rewrite !abs_spec, opp_spec.
  destruct (Prim2SF s); reflexivity.
Qed.

Lemma abs_eqb_zero s : (abs s =? 0) = (s =? 0).
Proof.
  rewrite !eqb_zero_SF, abs_spec. destruct (Prim2SF s); reflexivity.
Qed.

Lemma abs_of_zero s : (s =? 0) = true -> abs s = 0.
Proof.
  rewrite eqb_zero_SF. intros Hz. apply Prim2SF_inj. rewrite abs_spec.
  destruct (Prim2SF s); try discriminate. reflexivity.
Qed.

(** ** The constants and the data, in binary64 *)

Example constants_binary64 :
  Mw = 18.01528 /\ Ci = 1.1 /\ Co = 0.55 /\ Hp = 62.5e-6 /\
  D_PLA_imperm = 1e-15 /\ dec 1 6 = 1e-6.
Proof. repeat split. Qed.

Example H_1x_binary64 :
  H_1x = [5.6999999999999996e-05; 5.9999999999999995e-05; 6.2000000000000003e-05] /\
  WVTR_1x = [3363; 2232; 1922].
Proof. split; reflexivity. Qed.

(** ** [extract_D] on binary64 *)

(** The numerator [Mw * (Ci - Co)] is about 9.9: a normal number, at
    least 4. *)
Lemma numerator_SF :
  Prim2SF (Mw * (Ci - Co))%sc = S754_finite false 5577935570279542 (-49).
Proof. vm_compute. reflexivity. Qed.

Lemma extract_D_num_SF (s : float) :
  Prim2SF (extract_D_num s) =
  SFdiv prec emax (S754_finite false 5577935570279542 (-49)) (SFabs (Prim2SF s)).
Proof.
  unfold extract_D_num. cbn [div absv binary64].
  rewrite div_spec, abs_spec, numerator_SF. reflexivity.
Qed.

Lemma extract_D_NpFloat64 (s : float) :
  extract_D (NpFloat64 s) = Return (NpFloat64 (extract_D_num s)).
Proof. reflexivity. Qed.

Lemma extract_D_PyFloat (s : float) :
  extract_D (PyFloat s) =
  if s =? 0 then Raise ZeroDivisionError else Return (PyFloat (extract_D_num s)).
Proof.
  unfold extract_D, py_truediv, py_abs. cbn [eqb binary64 of_Z float_of_Z].
  change PrimFloat.zero with 0. rewrite abs_eqb_zero. reflexivity.
Qed.

Lemma extract_D_returns (v : value float) :
  (num v =? 0) = false ->
  exists d, extract_D v = Return d /\ num d = extract_D_num (num v).
Proof.
  intros Hnz. destruct v as [s|s]; cbn [num] in *.
  - rewrite extract_D_PyFloat, Hnz. eexists. split; reflexivity.
  - rewrite extract_D_NpFloat64. eexists. split; reflexivity.
Qed.

Lemma extract_D_num_positive (s : float) :
  is_finite s = true -> (s =? 0) = false -> (0 <? extract_D_num s) = true.
Proof.
  rewrite is_finite_SF, eqb_zero_SF, ltb_spec, extract_D_num_SF.
  change (Prim2SF 0) with (S754_zero false).
  pose proof (Prim2SF_valid s) as Hv.
  destruct (Prim2SF s) as [sg|sg| |sg m e]; try discriminate. intros _ _.
  cbn [SFabs]. rewrite SFdiv_normal_positive; try reflexivity; try lia.
  exact Hv.
Qed.

Lemma extract_D_num_antitone (s1 s2 : float) :
  (s1 =? 0) = false -> (abs s1 <? abs s2) = true ->
  (extract_D_num s2 <=? extract_D_num s1) = true.
Proof.
  rewrite eqb_zero_SF, ltb_spec, leb_spec, !extract_D_num_SF, !abs_spec.
  pose proof (Prim2SF_valid s1) as Hv1. pose proof (Prim2SF_valid s2) as Hv2.
  destruct (Prim2SF s1) as [sg1|sg1| |sg1 m1 e1]; try discriminate;
    destruct (Prim2SF s2) as [sg2|sg2| |sg2 m2 e2]; try discriminate;
    cbn [SFabs]; intros _ Hlt.
  - (* |s2| infinite: the quotient is +0 *)
    destruct (SFdiv_normal 5577935570279542 (-49) eq_refl ltac:(lia) false false m1 e1 Hv1)
      as (m & j & _ & _ & _ & _ & Hdiv).
    rewrite Hdiv. unfold overflow_or. cbn [SFdiv xorb].
    destruct (_ <=? 971)%Z; reflexivity.
  - apply SFdiv_normal_antitone; try assumption; try reflexivity; lia.
Qed.

(** C1, as stated, fails at an infinite slope: the quotient is [0.0],
    which is not strictly positive.  A fit can deliver such a slope. *)
Lemma extract_D_infinite_slope :
  (infinity =? 0) = false /\
  extract_D (NpFloat64 infinity) = Return (NpFloat64 0) /\
  (0 <? 0) = false /\
  exists i r2,
    fit_linear [0; 0.5] [0; 1.7e308] = Return (NpFloat64 infinity, i, r2).
Proof.
  repeat split. eexists _, _. vm_compute. reflexivity.
Qed.

(** C1, amended: for every finite nonzero slope [s], [extract_D s]
    returns [Mw * (Ci - Co) / |s|] with [Mw = 18.01528], [Ci = 1.1],
    [Co = 0.55], whether [s] is a Python float or a NumPy float64, and
    that number is strictly positive. *)
Theorem extract_D_formula_positive (s : float) :
  is_finite s = true -> (s =? 0) = false ->
  extract_D (PyFloat s) = Return (PyFloat (18.01528 * (1.1 - 0.55) / abs s)) /\
  extract_D (NpFloat64 s) = Return (NpFloat64 (18.01528 * (1.1 - 0.55) / abs s)) /\
  (0 <? 18.01528 * (1.1 - 0.55) / abs s) = true.
Proof.
  intros Hfin Hnz.
  change (18.01528 * (1.1 - 0.55) / abs s) with (extract_D_num s).
  rewrite extract_D_PyFloat, Hnz, extract_D_NpFloat64.
  repeat split. apply extract_D_num_positive; assumption.
Qed.

Lemma extract_D_formula_positive_witness :
  is_finite (-295210526.3157891) = true /\
  ((-295210526.3157891) =? 0) = false /\
  extract_D (NpFloat64 (-295210526.3157891)) =
    Return (NpFloat64 (18.01528 * (1.1 - 0.55) / abs (-295210526.3157891))) /\
  (0 <? 18.01528 * (1.1 - 0.55) / abs (-295210526.3157891)) = true.
Proof.
  split; [reflexivity|]. split; [reflexivity|].
  apply (extract_D_formula_positive (-295210526.3157891)); reflexivity.
Defined.

(** C2, as stated, fails: a zero slope of the kind [fit_linear] delivers
    (a NumPy float64) is not rejected; the result is [inf].  A flat
    series, such as WVTR = 5 at thicknesses 1, 2, 3, produces one. *)
Lemma extract_D_float64_zero_returns :
  extract_D (NpFloat64 0) = Return (NpFloat64 infinity) /\
  (forall e, extract_D (NpFloat64 0) <> Raise e) /\
  bind (fit_linear [1; 2; 3] [5; 5; 5]) (fun '(s, _, _) => extract_D s) =
    Return (NpFloat64 infinity).
Proof.
  split; [reflexivity|]. split; [intros e; discriminate|].
  vm_compute. reflexivity.
Qed.

(** C2, amended: a zero slope (of either sign) is rejected with
    [ZeroDivisionError] when it is a Python float; when it is a NumPy
    float64 the call returns [inf]. *)
Theorem extract_D_zero (s : float) :
  (s =? 0) = true ->
  extract_D (PyFloat s) = Raise ZeroDivisionError /\
  extract_D (NpFloat64 s) = Return (NpFloat64 infinity).
Proof.
  intros Hz. rewrite extract_D_PyFloat, Hz, extract_D_NpFloat64.
  split; [reflexivity|]. unfold extract_D_num. cbn [div absv binary64].
  rewrite (abs_of_zero s Hz). reflexivity.
Qed.

Lemma extract_D_zero_witness :
  (neg_zero =? 0) = true /\
  extract_D (PyFloat neg_zero) = Raise ZeroDivisionError /\
  extract_D (NpFloat64 neg_zero) = Return (NpFloat64 infinity).
Proof. split; [reflexivity|]. apply (extract_D_zero neg_zero). reflexivity. Defined.

(** C5, as stated, fails: the slopes 1.9 and 1.9000000000000001 are
    adjacent binary64 numbers and give the same coefficient. *)
Lemma extract_D_tie :
  (1.9 =? 0) = false /\ (1.9000000000000001 =? 0) = false /\
  (abs 1.9 <? abs 1.9000000000000001) = true /\
  extract_D (NpFloat64 1.9) = Return (NpFloat64 5.2149494736842108) /\
  extract_D (NpFloat64 1.9000000000000001) = Return (NpFloat64 5.2149494736842108) /\
  (5.2149494736842108 <? 5.2149494736842108) = false.
Proof. repeat split. Qed.

(** C5, amended: for all nonzero slopes with [|s1| < |s2|], both calls
    return and [extract_D s1 >= extract_D s2]. *)
Theorem extract_D_nonincreasing (v1 v2 : value float) :
  (num v1 =? 0) = false -> (num v2 =? 0) = false ->
  (abs (num v1) <? abs (num v2)) = true ->
  exists d1 d2, extract_D v1 = Return d1 /\ extract_D v2 = Return d2 /\
    (num d2 <=? num d1) = true.
Proof.
  intros Hz1 Hz2 Hlt.
  destruct (extract_D_returns v1 Hz1) as (d1 & Hd1 & Hn1).
  destruct (extract_D_returns v2 Hz2) as (d2 & Hd2 & Hn2).
  exists d1, d2. rewrite Hn1, Hn2. repeat split; try assumption.
  apply extract_D_num_antitone; assumption.
Qed.

Lemma extract_D_nonincreasing_witness :
  exists d1 d2,
    extract_D (NpFloat64 (-107923076.92307697)) = Return d1 /\
    extract_D (NpFloat64 (-295210526.3157891)) = Return d2 /\
    (num d2 <=? num d1) = true.
Proof.
  apply (extract_D_nonincreasing (NpFloat64 (-107923076.92307697))
           (NpFloat64 (-295210526.3157891))); reflexivity.
Defined.

(** C10: [extract_D] is even: the sign of the slope never affects the
    result (the same value, or the same exception). *)
Theorem extract_D_even (s : float) :
  extract_D (PyFloat (- s)) = extract_D (PyFloat s) /\
  extract_D (NpFloat64 (- s)) = extract_D (NpFloat64 s).
Proof.
  unfold extract_D, py_abs. cbn [absv binary64]. rewrite abs_opp.
  split; reflexivity.
Qed.

(** ** The fits of the script *)

(** C3, as stated, fails: the slope of the 1x series is negative, but the
    coefficient extracted from it is about 3.36e-08, above 1e-09.  It is
    so for the thicknesses as the script computes them, [57 * 1e-6], and
    for the literals [57e-6]. *)
Lemma series_1x_above_range :
  fit_linear H_1x WVTR_1x =
    Return (NpFloat64 (-295210526.3157891), NpFloat64 20119.894736842085,
            NpFloat64 0.95942039822516423) /\
  extract_D (NpFloat64 (-295210526.3157891)) =
    Return (NpFloat64 3.3563857372080629e-08) /\
  (3.3563857372080629e-08 <=? 1e-9) = false /\
  bind (fit_linear [57e-6; 60e-6; 62e-6] [3363; 2232; 1922])
    (fun '(s, _, _) => extract_D s) = Return (NpFloat64 3.3563857372080589e-08) /\
  (3.3563857372080589e-08 <=? 1e-9) = false.
Proof. repeat split; vm_compute; reflexivity. Qed.

(** C3, amended: for [H_1x] and [WVTR_1x] the slope returned by
    [fit_linear] is negative, and [extract_D] of that slope returns a
    positive value between 1e-08 and 1e-07. *)
Theorem series_1x_coefficient :
  exists s i r2 d,
    fit_linear H_1x WVTR_1x = Return (NpFloat64 s, i, r2) /\
    extract_D (NpFloat64 s) = Return (NpFloat64 d) /\
    (s <? 0) = true /\ (0 <? d) = true /\
    (1e-8 <=? d) = true /\ (d <=? 1e-7) = true.
Proof.
  exists (-295210526.3157891), (NpFloat64 20119.894736842085),
    (NpFloat64 0.95942039822516423), 3.3563857372080629e-08.
  repeat split; vm_compute; reflexivity.
Qed.

(** C6: for each of the four experimental series the R² returned by
    [fit_linear] lies in [0, 1]. *)
Theorem r_squared_in_unit_interval :
  unit_interval_fit H_1x WVTR_1x /\ unit_interval_fit H_2x WVTR_2x /\
  unit_interval_fit H_3x WVTR_3x /\ unit_interval_fit H_PLA WVTR_PLA.
Proof.
  repeat split.
  - exists (NpFloat64 (-295210526.3157891)), (NpFloat64 20119.894736842085),
      (NpFloat64 0.95942039822516423). repeat split; vm_compute; reflexivity.
  - exists (NpFloat64 (-107923076.92307697)), (NpFloat64 9954.5641025641053),
      (NpFloat64 0.68575707690356724). repeat split; vm_compute; reflexivity.
  - exists (NpFloat64 (-117833333.33333337)), (NpFloat64 10750.66666666667),
      (NpFloat64 0.98130956712483652). repeat split; vm_compute; reflexivity.
  - exists (NpFloat64 (-88402669.632925481)), (NpFloat64 7524.40489432703),
      (NpFloat64 0.99367812885686413). repeat split; vm_compute; reflexivity.
Qed.

(** C9: a run prints, after the heading, exactly five lines that report a
    diffusion coefficient, each in scientific notation with two decimals:
    the three Biopolymer-1 coefficients, the permeable-PLA coefficient and
    the impermeable-PLA constant 1e-15. *)
Theorem script_output :
  exists out,
    script = Return out /\
    out =
      [ "Extracted diffusion coefficients (linear regression):"%string;
        "Biopolymer-1 Ds (1×) = 3.36e-08 m²/s"%string;
        "Biopolymer-1 Ds (2×) = 9.18e-08 m²/s"%string;
        "Biopolymer-1 Ds (3×) = 8.41e-08 m²/s"%string;
        "PLA Ds (permeable) = 1.12e-07 m²/s"%string;
        "PLA Ds (impermeable) = 1.00e-15 m²/s"%string ] /\
    filter reports_coefficient out = tl out /\
    List.length (filter reports_coefficient out) = 5%nat.
Proof.
  eexists. split; [vm_compute; reflexivity|].
  repeat split; vm_compute; reflexivity.
Qed.

(** ** The impermeable-PLA reference curve *)

Lemma ordered_nth (r : float -> float -> bool) (l : list float) (i j : nat) :
  ordered r l = true -> (i < j < List.length l)%nat ->
  r (nth i l 0) (nth j l 0) = true.
Proof.
  revert i j. induction l as [|x tl IH]; intros i j Hord Hij;
    cbn [List.length] in Hij; [lia|].
  cbn [ordered] in Hord. apply andb_prop in Hord as [Hx Htl].
  destruct j as [|j]; [lia|]. destruct i as [|i]; cbn [nth].
  - rewrite forallb_forall in Hx. apply Hx. apply nth_In. lia.
  - apply IH; [exact Htl|lia].
Qed.

Lemma imperm_exact_decreasing (D H1 H2 : R) :
  (0 < D)%R -> (0 <= H1 < H2)%R -> (imperm D H2 < imperm D H1)%R.
Proof.
  intros HD [H1pos Hlt]. unfold imperm, Mw, Ci, Co, Hp, dec.
  cbn [of_Z add sub mul div exact].
  change (10 ^ 5)%Z with 100000%Z. change (10 ^ 1)%Z with 10%Z.
  change (10 ^ 2)%Z with 100%Z. change (10 ^ 7)%Z with 10000000%Z.
  set (c := (1801528 / 100000 * (11 / 10 - 55 / 100))%R).
  assert (Hc : (0 < c)%R) by (unfold c; lra).
  set (hp := (625 / 10000000)%R).
  assert (Hhp : (0 < hp)%R) by (unfold hp; lra).
  assert (Hinv : (0 < / D)%R) by (apply Rinv_0_lt_compat; exact HD).
  unfold Rdiv at 1 3 4 6.
  assert (Ha : (0 < hp * / D + H1 * / D)%R) by nra.
  assert (Hb : (hp * / D + H1 * / D < hp * / D + H2 * / D)%R) by nra.
  unfold Rdiv. apply Rmult_lt_compat_l; [exact Hc|].
  apply Rinv_lt_contravar; [|exact Hb]. nra.
Qed.

(** C4: every sample of the reference curve is
    [Mw*(Ci-Co) / (Hp/D + H/D)] at the sampled thickness [H], with
    [D = D_PLA_imperm]; along the 200 sampled thicknesses, which increase,
    the computed curve is strictly decreasing; for every positive [D] the
    formula is strictly decreasing in the thickness; and with [D = 1e-15]
    the value at [H = 64e-6] is above the value at [H = 83e-6]. *)
Theorem imperm_curve (i j : nat) (D H1 H2 : R) :
  (i < j < 200)%nat -> (0 < D)%R -> (0 <= H1 < H2)%R ->
  List.length (WVTR_PLA_imperm (T := float)) = 200%nat /\
  nth i WVTR_PLA_imperm 0 =
    18.01528 * (1.1 - 0.55) / (62.5e-6 / 1e-15 + nth i Hfit_P 0 / 1e-15) /\
  nth j WVTR_PLA_imperm 0 =
    18.01528 * (1.1 - 0.55) / (62.5e-6 / 1e-15 + nth j Hfit_P 0 / 1e-15) /\
  (nth i Hfit_P 0 <? nth j Hfit_P 0) = true /\
  (nth j WVTR_PLA_imperm 0 <? nth i WVTR_PLA_imperm 0) = true /\
  (imperm D H2 < imperm D H1)%R /\
  (imperm 1e-15 83e-6 <? imperm 1e-15 64e-6) = true.
Proof.
  intros Hij HD HH.
  assert (Hlen : List.length (Hfit_P (T := float)) = 200%nat)
    by (vm_compute; reflexivity).
  assert (Hlen' : List.length (WVTR_PLA_imperm (T := float)) = 200%nat)
    by (unfold WVTR_PLA_imperm; rewrite length_map; exact Hlen).
  assert (Hnth : forall k, (k < 200)%nat ->
            nth k WVTR_PLA_imperm 0 = imperm D_PLA_imperm (nth k Hfit_P 0)).
  { intros k Hk. unfold WVTR_PLA_imperm.
    rewrite (nth_indep _ 0 (imperm D_PLA_imperm 0))
      by (rewrite length_map, Hlen; exact Hk).
    apply map_nth. }
  split; [exact Hlen'|].
  split; [rewrite Hnth by lia; reflexivity|].
  split; [rewrite Hnth by lia; reflexivity|].
  split.
  { apply (ordered_nth PrimFloat.ltb); [vm_compute; reflexivity|].
    rewrite Hlen. exact Hij. }
  split.
  { apply (ordered_nth (fun a b => b <? a)); [vm_compute; reflexivity|].
    rewrite Hlen'. exact Hij. }
  split; [apply imperm_exact_decreasing; assumption|].
  vm_compute; reflexivity.
Qed.

Lemma imperm_curve_witness :
  nth 0 WVTR_PLA_imperm 0 =
    18.01528 * (1.1 - 0.55) / (62.5e-6 / 1e-15 + nth 0 Hfit_P 0 / 1e-15) /\
  nth 199 WVTR_PLA_imperm 0 =
    18.01528 * (1.1 - 0.55) / (62.5e-6 / 1e-15 + nth 199 Hfit_P 0 / 1e-15) /\
  (nth 0 Hfit_P 0 <? nth 199 Hfit_P 0) = true /\
  (nth 199 WVTR_PLA_imperm 0 <? nth 0 WVTR_PLA_imperm 0) = true /\
  (imperm 1 2 < imperm 1 1)%R.
Proof.
  destruct (imperm_curve 0 199 1 1 2) as (_ & Hi & Hj & Hup & Hdown & He & _).
  - lia.
  - lra.
  - lra.
  - repeat split; assumption.
Defined.

(** ** Inputs that [fit_linear] rejects *)

Lemma fold_left_repeat {A} (f : A -> A -> A) (a : A) (n : nat) :
  f a a = a -> fold_left f (repeat a n) a = a.
Proof.
  intros Hf. induction n as [|n IH]; [reflexivity|].
  cbn [repeat fold_left]. rewrite Hf. exact IH.
Qed.

Lemma amax_repeat {T} `{Scalar T} (a : T) (n : nat) :
  amax (repeat a (S n)) = a.
Proof.
  unfold amax, reduce. cbn [repeat]. apply fold_left_repeat.
  unfold np_maximum. destruct (is_nan a), (a <? a)%sc; reflexivity.
Qed.

Lemma amin_repeat {T} `{Scalar T} (a : T) (n : nat) :
  amin (repeat a (S n)) = a.
Proof.
  unfold amin, reduce. cbn [repeat]. apply fold_left_repeat.
  unfold np_minimum. destruct (is_nan a), (a <? a)%sc; reflexivity.
Qed.

Lemma contains_nan_repeat (a : float) (n : nat) :
  (a =? a) = true -> contains_nan (repeat a n) = false.
Proof.
  intros Ha. induction n as [|n IH]; [reflexivity|].
  cbn [repeat contains_nan existsb]. fold (contains_nan (repeat a n)).
  rewrite IH. unfold is_nan. cbn [eqb binary64]. rewrite Ha. reflexivity.
Qed.

Lemma too_small_repeat {T} `{Scalar T} (a : T) (n : nat) :
  too_small (repeat a (S (S n))) = false.
Proof.
  unfold too_small, size. rewrite repeat_length. apply Z.leb_gt. lia.
Qed.

(** The regression proper refuses a constant [x] of two points or more. *)
Lemma linregress_body_constant (a : float) (n : nat) (y : list float) :
  (a =? a) = true ->
  exists msg, linregress_body (repeat a (S (S n))) y = Raise (ValueError msg).
Proof.
  intros Ha. unfold linregress_body.
  destruct ((size (repeat a (S (S n))) =? 0) || (size y =? 0))%Z;
    [eexists; reflexivity|].
  rewrite amax_repeat, amin_repeat. cbn [eqb binary64]. rewrite Ha.
  unfold size. rewrite repeat_length.
  replace (1 <? Z.of_nat (S (S n)))%Z with true by (symmetry; apply Z.ltb_lt; lia).
  eexists. reflexivity.
Qed.

Lemma linregress_raises (x y : list float) :
  degenerate x y -> exists msg, linregress x y = Raise (ValueError msg).
Proof.
  intros [(Hne & Hx & Hy)|[(a & n & Ha & -> & Hnan & Hlen)|(a & Ha & -> & Hnan & Hlen)]];
    unfold linregress, broadcast_arrays.
  - apply Nat.eqb_neq in Hne, Hx, Hy. rewrite Hne, Hx, Hy. eexists. reflexivity.
  - rewrite repeat_length. destruct Hlen as [Hlen|Hlen]; rewrite Hlen.
    + rewrite Nat.eqb_refl. cbn [bind].
      rewrite (contains_nan_repeat a _ Ha), Hnan, too_small_repeat. cbn [orb].
      replace (too_small y) with false
        by (symmetry; unfold too_small, size; rewrite Hlen; apply Z.leb_gt; lia).
      apply linregress_body_constant. exact Ha.
    + destruct y as [|b [|? ?]]; try discriminate. cbn [Nat.eqb bind hd].
      cbn [contains_nan existsb orb] in Hnan. apply orb_false_elim in Hnan as [Hb _].
      assert (Hbb : (b =? b) = true).
      { unfold is_nan in Hb. cbn [eqb binary64] in Hb. apply negb_false_iff in Hb. exact Hb. }
      rewrite (contains_nan_repeat a _ Ha), (contains_nan_repeat b _ Hbb).
      rewrite !too_small_repeat. cbn [orb].
      apply linregress_body_constant. exact Ha.
  - destruct y as [|b [|c y]]; cbn [List.length] in Hlen; try lia.
    cbn [List.length Nat.eqb bind hd].
    change (repeat a (S (S (List.length y)))) with (repeat a (S (S (List.length y)))).
    rewrite (contains_nan_repeat a _ Ha), Hnan, too_small_repeat. cbn [orb].
    replace (too_small (b :: c :: y)) with false
      by (symmetry; unfold too_small, size; cbn [List.length]; apply Z.leb_gt; lia).
    apply linregress_body_constant. exact Ha.
Qed.

Lemma fit_linear_few_points (x y : list float) :
  List.length x = List.length y -> (List.length x <= 1)%nat ->
  fit_linear x y = Return (NpFloat64 nan, NpFloat64 nan, NpFloat64 nan).
Proof.
  intros Hy Hx.
  destruct x as [|a [|? ?]]; cbn [List.length] in Hx; try lia;
    destruct y as [|b [|? ?]]; cbn [List.length] in Hy; try lia;
    unfold fit_linear, linregress, broadcast_arrays;
    cbn [List.length Nat.eqb bind hd repeat contains_nan existsb too_small size];
    repeat match goal with |- context [is_nan ?v] => destruct (is_nan v) end;
    reflexivity.
Qed.

(** C8, as stated, fails: sequences of fewer than two points are not
    rejected, [fit_linear] returns NaN for slope, intercept and R²; and
    a [y] of length 1 against three [x] is not rejected either, it is
    repeated and fitted with slope 0. *)
Lemma fit_linear_single_point :
  fit_linear [1] [2] = Return (NpFloat64 nan, NpFloat64 nan, NpFloat64 nan) /\
  fit_linear [] [] = Return (NpFloat64 nan, NpFloat64 nan, NpFloat64 nan) /\
  exists s i r2,
    fit_linear [1; 2; 3] [5] = Return (NpFloat64 s, NpFloat64 i, NpFloat64 r2) /\
    (s =? 0) = true /\ (i =? 5) = true /\ PrimFloat.is_nan r2 = true.
Proof.
  split; [vm_compute; reflexivity|]. split; [vm_compute; reflexivity|].
  eexists _, _, _. split; [vm_compute; reflexivity|].
  repeat split; vm_compute; reflexivity.
Qed.

(** A [y] of length 1 is repeated to the length of a longer [x]. *)
Lemma fit_linear_broadcast_y {T} `{Scalar T} (x : list T) (c : T) :
  (2 <= List.length x)%nat ->
  fit_linear x [c] = fit_linear x (repeat c (List.length x)).
Proof.
  intros Hn. unfold fit_linear, linregress at 1 2, broadcast_arrays.
  rewrite repeat_length. cbn [List.length hd].
  destruct (List.length x) as [|[|n]] eqn:Hl; try lia.
  cbn [Nat.eqb]. rewrite Nat.eqb_refl. reflexivity.
Qed.

(** C8, amended: [fit_linear] fails, with the [ValueError] raised by the
    regression and handed on unchanged, whenever the two lengths differ
    and neither is 1, or no value is NaN and, once a sequence of length 1
    has been repeated to the length of the other, [x] is one number
    repeated at least twice.  Two sequences of the same length with
    fewer than two points are not rejected: slope, intercept and R² are
    NaN.  A [y] of length 1 is not rejected either: it is repeated to
    the length of [x]. *)
Theorem fit_linear_rejects (x y : list float) :
  (degenerate x y ->
   exists msg,
     linregress x y = Raise (ValueError msg) /\
     fit_linear x y = Raise (ValueError msg)) /\
  (List.length x = List.length y -> (List.length x <= 1)%nat ->
   fit_linear x y = Return (NpFloat64 nan, NpFloat64 nan, NpFloat64 nan)) /\
  (forall c, (2 <= List.length x)%nat ->
   fit_linear x [c] = fit_linear x (repeat c (List.length x))).
Proof.
  split; [|split].
  - intros Hdeg. destruct (linregress_raises x y Hdeg) as (msg & Hmsg).
    exists msg. split; [exact Hmsg|]. unfold fit_linear. rewrite Hmsg. reflexivity.
  - apply fit_linear_few_points.
  - intros c. apply fit_linear_broadcast_y.
Qed.

Lemma fit_linear_rejects_witness :
  degenerate [6.4e-05; 6.4e-05] [1880; 452] /\
  (exists msg, linregress [6.4e-05; 6.4e-05] [1880; 452] = Raise (ValueError msg) /\
    fit_linear [6.4e-05; 6.4e-05] [1880; 452] = Raise (ValueError msg)) /\
  fit_linear [6.4e-05] [1880] = Return (NpFloat64 nan, NpFloat64 nan, NpFloat64 nan) /\
  fit_linear [5.7e-05; 6e-05; 6.2e-05] [3363] =
    fit_linear [5.7e-05; 6e-05; 6.2e-05] [3363; 3363; 3363].
Proof.
  assert (Hdeg : degenerate [6.4e-05; 6.4e-05] [1880; 452]).
  { right. left. exists 6.4e-05, 0%nat. repeat split; try reflexivity. left. reflexivity. }
  split; [exact Hdeg|]. split; [|split].
  - apply (proj1 (fit_linear_rejects _ _) Hdeg).
  - apply (proj1 (proj2 (fit_linear_rejects [6.4e-05] [1880]))); [reflexivity|apply le_n].
  - apply (proj2 (proj2 (fit_linear_rejects [5.7e-05; 6e-05; 6.2e-05] [])) 3363).
    apply Nat.leb_le. reflexivity.
Defined.

(** ** The regression, in general *)

Section Regression.

Context {T : Type} `{Scalar T}.
Local Open Scope scalar_scope.

Lemma linregress_body_Return_inv (x y : list T) (res : LinregressResult T) :
  linregress_body x y = Return res ->
  accepted x y = true /\
  slope res = NpFloat64 (ssxym_of x y / ssxm_of x) /\
  intercept res = NpFloat64 (mean y - ssxym_of x y / ssxm_of x * mean x) /\
  rvalue res = rvalue_of x y.
Proof.
  unfold linregress_body, accepted, cov_bias, rvalue_of, ssxym_of, ssxm_of, ssym_of.
  destruct ((size x =? 0) || (size y =? 0))%Z; [discriminate|].
  destruct ((amax x =? amin x) && (1 <? size x)%Z); [discriminate|].
  destruct (size y =? size x)%Z; [|discriminate].
  cbn [negb andb]. intros Hres. injection Hres as <-. repeat split.
Qed.

Lemma linregress_body_accepted (x y : list T) :
  accepted x y = true ->
  linregress_body x y =
  Return {| slope := NpFloat64 (ssxym_of x y / ssxm_of x);
            intercept := NpFloat64 (mean y - ssxym_of x y / ssxm_of x * mean x);
            rvalue := rvalue_of x y |}.
Proof.
  unfold linregress_body, accepted, cov_bias, rvalue_of, ssxym_of, ssxm_of, ssym_of.
  destruct ((size x =? 0) || (size y =? 0))%Z; [discriminate|].
  destruct ((amax x =? amin x) && (1 <? size x)%Z); [discriminate|].
  destruct (size y =? size x)%Z; [|discriminate].
  intros _. reflexivity.
Qed.

(** Two samples of the same length, of at least two points and without
    NaN, go to the regression proper as they are. *)
Lemma linregress_paired (x y : list T) :
  List.length x = List.length y -> (2 <= List.length x)%nat ->
  contains_nan x = false -> contains_nan y = false ->
  linregress x y = linregress_body x y.
Proof.
  intros Hlen Hn Hx Hy. unfold linregress, broadcast_arrays.
  rewrite <- Hlen, Nat.eqb_refl. cbn [bind]. rewrite Hx, Hy. cbn [orb].
  unfold too_small, size. rewrite <- Hlen.
  replace (Z.of_nat (List.length x) <=? 1)%Z with false
    by (symmetry; apply Z.leb_gt; lia).
  reflexivity.
Qed.

(** Whatever [linregress] returns is the result made of NaN, or the
    result of the regression proper on the broadcast samples. *)
Lemma linregress_Return_inv (x y : list T) (res : LinregressResult T) :
  linregress x y = Return res ->
  res = nan_result \/
  exists x' y',
    broadcast_arrays x y = Return (x', y') /\
    accepted x' y' = true /\
    slope res = NpFloat64 (ssxym_of x' y' / ssxm_of x') /\
    intercept res = NpFloat64 (mean y' - ssxym_of x' y' / ssxm_of x' * mean x') /\
    rvalue res = rvalue_of x' y'.
Proof.
  unfold linregress. destruct (broadcast_arrays x y) as [[x' y']|e]; cbn [bind];
    [|discriminate].
  destruct (contains_nan x' || contains_nan y');
    [intros Hres; injection Hres as <-; left; reflexivity|].
  destruct (too_small x' || too_small y');
    [intros Hres; injection Hres as <-; left; reflexivity|].
  intros Hres. right. exists x', y'. split; [reflexivity|].
  apply linregress_body_Return_inv. exact Hres.
Qed.

(** The slope that [fit_linear] returns is always a NumPy [float64], and
    its R² is the square of NaN or of the correlation coefficient of the
    broadcast samples. *)
Lemma fit_linear_Return_inv (x y : list T) (s i r2 : value T) :
  fit_linear x y = Return (s, i, r2) ->
  (exists s', s = NpFloat64 s') /\
  (r2 = NpFloat64 (NaN * NaN) \/ exists x' y', r2 = py_square (rvalue_of x' y')).
Proof.
  unfold fit_linear. destruct (linregress x y) as [res|e] eqn:Hlr; cbn [bind];
    [|discriminate].
  intros Hfit. injection Hfit as <- <- <-.
  destruct (linregress_Return_inv x y res Hlr) as [->|(x' & y' & _ & _ & Hs & _ & Hr)].
  - split; [eexists; reflexivity|]. left. reflexivity.
  - rewrite Hs, Hr. split; [eexists; reflexivity|]. right. exists x', y'. reflexivity.
Qed.

End Regression.

(** ** The regression in exact arithmetic *)

Local Open Scope R_scope.

Lemma fold_left_Rplus (l : list R) (a : R) : fold_left Rplus l a = a + Rsum l.
Proof.
  revert a. induction l as [|x l IH]; intros a; cbn [fold_left Rsum fold_right].
  - lra.
  - rewrite IH. unfold Rsum. lra.
Qed.

Lemma np_sum_Rsum (l : list R) : np_sum l = Rsum l.
Proof.
  destruct l as [|x l]; [reflexivity|].
  unfold np_sum, reduce. cbn [add exact]. rewrite fold_left_Rplus. reflexivity.
Qed.

Lemma size_IZR (l : list R) : IZR (size l) = INR (List.length l).
Proof. unfold size. symmetry. apply INR_IZR_INZ. Qed.

Lemma mean_Rsum (l : list R) : mean l = Rsum l / INR (List.length l).
Proof.
  unfold mean. cbn [div of_Z exact]. rewrite np_sum_Rsum, size_IZR. reflexivity.
Qed.

Lemma dot_Rsum (a b : list R) : dot a b = Rsum (zip_mul a b).
Proof. unfold dot. apply np_sum_Rsum. Qed.

Lemma Rsum_affine (s i : R) (l : list R) :
  Rsum (map (fun x => s * x + i) l) = s * Rsum l + i * INR (List.length l).
Proof.
  induction l as [|x l IH]; cbn [map Rsum fold_right List.length].
  - cbn [INR]. lra.
  - fold (Rsum (map (fun x => s * x + i) l)). fold (Rsum l).
    rewrite IH, S_INR. lra.
Qed.

Lemma INR_length_pos (l : list R) : l <> [] -> 0 < INR (List.length l).
Proof.
  intros Hl. destruct l as [|x l]; [congruence|].
  apply lt_0_INR. cbn [List.length]. lia.
Qed.

Lemma mean_affine (s i : R) (l : list R) :
  l <> [] -> mean (map (fun x => s * x + i) l) = s * mean l + i.
Proof.
  intros Hl. rewrite !mean_Rsum, Rsum_affine, length_map.
  pose proof (INR_length_pos l Hl). field. lra.
Qed.

Lemma center_affine (s i : R) (l : list R) :
  l <> [] ->
  center (map (fun x => s * x + i) l) = map (fun d => s * d) (center l).
Proof.
  intros Hl. unfold center. rewrite (mean_affine s i l Hl), !map_map.
  apply map_ext. intros x. cbn [sub add mul exact]. ring.
Qed.

Lemma Rsum_zip_mul_scale (s : R) (a b : list R) :
  Rsum (zip_mul a (map (fun d => s * d) b)) = s * Rsum (zip_mul a b).
Proof.
  revert b. induction a as [|x a IH]; intros [|y b];
    cbn [map zip_mul Rsum fold_right]; try lra.
  fold (Rsum (zip_mul a (map (fun d => s * d) b))). fold (Rsum (zip_mul a b)).
  rewrite IH. cbn [mul exact]. ring.
Qed.

Lemma sumsq_nonneg (d : list R) : 0 <= Rsum (zip_mul d d).
Proof.
  induction d as [|x d IH]; cbn [zip_mul Rsum fold_right]; [lra|].
  fold (Rsum (zip_mul d d)). cbn [mul exact]. nra.
Qed.

Lemma sumsq_zero (d : list R) :
  Rsum (zip_mul d d) = 0 -> Forall (fun v => v = 0) d.
Proof.
  induction d as [|x d IH]; cbn [zip_mul Rsum fold_right]; intros Hs;
    [constructor|].
  fold (Rsum (zip_mul d d)) in Hs. cbn [mul exact] in Hs.
  pose proof (sumsq_nonneg d) as Hd.
  constructor; [nra|]. apply IH. nra.
Qed.

Lemma centred_zero_constant (m : R) (x : list R) :
  Forall (fun v => v = 0) (map (fun v => v - m) x) ->
  x = repeat m (List.length x).
Proof.
  induction x as [|v x IH]; cbn [map List.length repeat]; intros Hall;
    [reflexivity|].
  inversion Hall as [|? ? Hv Hx]; subst. f_equal; [lra|]. apply IH. exact Hx.
Qed.

Lemma ssxm_nonzero (x : list R) :
  (2 <= List.length x)%nat -> (amax x =? amin x)%sc = false -> ssxm_of x <> 0.
Proof.
  intros Hlen Hguard Hz. unfold ssxm_of in Hz. rewrite dot_Rsum in Hz.
  cbn [mul div of_Z exact] in Hz. rewrite size_IZR in Hz.
  assert (Hn : 0 < INR (List.length x)) by (apply lt_0_INR; lia).
  assert (Hinv : 0 < 1 / INR (List.length x)).
  { unfold Rdiv. rewrite Rmult_1_l. apply Rinv_0_lt_compat. exact Hn. }
  assert (Hsq : Rsum (zip_mul (center x) (center x)) = 0).
  { pose proof (sumsq_nonneg (center x)). nra. }
  apply sumsq_zero in Hsq. unfold center in Hsq. cbn [sub exact] in Hsq.
  apply centred_zero_constant in Hsq.
  destruct (List.length x) as [|[|n]] eqn:Hl; try lia.
  rewrite Hsq, amax_repeat, amin_repeat in Hguard.
  cbn [eqb exact] in Hguard.
  destruct (Req_dec_T (mean x) (mean x)); [discriminate|congruence].
Qed.

(** No real number is a NaN. *)
Lemma contains_nan_exact (l : list R) : contains_nan l = false.
Proof.
  induction l as [|a l IH]; [reflexivity|].
  cbn [contains_nan existsb]. fold (contains_nan l). rewrite IH.
  unfold is_nan. cbn [eqb exact]. destruct (Req_dec_T a a); [reflexivity|congruence].
Qed.

(** What an accepted series of at least two points provides. *)
Lemma accepted_inv (x y : list R) :
  (2 <= List.length x)%nat -> accepted x y = true ->
  List.length x = List.length y /\ x <> [] /\ (amax x =? amin x)%sc = false.
Proof.
  intros Hlen Hacc. unfold accepted in Hacc.
  apply andb_prop in Hacc as [Hacc Hsz]. apply andb_prop in Hacc as [_ Hg].
  apply Z.eqb_eq in Hsz. unfold size in Hsz.
  apply negb_true_iff, andb_false_iff in Hg.
  split; [lia|]. split; [destruct x; cbn [List.length] in Hlen; [lia|congruence]|].
  destruct Hg as [Hg|Hg]; [exact Hg|].
  apply Z.ltb_ge in Hg. unfold size in Hg. lia.
Qed.

(** The fit of an accepted series of at least two points. *)
Lemma fit_linear_accepted (x y : list R) :
  (2 <= List.length x)%nat -> accepted x y = true ->
  fit_linear x y =
  Return (NpFloat64 (ssxym_of x y / ssxm_of x),
          NpFloat64 (mean y - ssxym_of x y / ssxm_of x * mean x),
          py_square (rvalue_of x y)).
Proof.
  intros Hlen Hacc. destruct (accepted_inv x y Hlen Hacc) as (Hxy & _ & _).
  unfold fit_linear.
  rewrite (linregress_paired x y Hxy Hlen (contains_nan_exact x) (contains_nan_exact y)).
  rewrite (linregress_body_accepted x y Hacc). reflexivity.
Qed.

Lemma stretched_length {A} (n : nat) (y : list A) :
  (2 <= List.length y)%nat -> stretched n y = y.
Proof. destruct y as [|a [|b y]]; cbn [List.length]; try lia. reflexivity. Qed.

Lemma stretched_map {A B} (f : A -> B) (n : nat) (y : list A) :
  stretched n (map f y) = map f (stretched n y).
Proof.
  destruct y as [|a [|b y]]; try reflexivity.
  cbn [map stretched]. symmetry. apply map_repeat.
Qed.

(** Fitting against a [y] of length 1 is fitting against its repetition. *)
Lemma fit_linear_stretched (x y : list R) :
  (2 <= List.length x)%nat ->
  fit_linear x y = fit_linear x (stretched (List.length x) y).
Proof.
  intros Hlen. destruct y as [|c [|d y]]; try reflexivity.
  apply fit_linear_broadcast_y. exact Hlen.
Qed.

(** What a returned fit says about its series, once a [y] of length 1
    has been repeated. *)
Lemma fit_linear_exact_inv (x y : list R) (s i : R) (r2 : value R) :
  (2 <= List.length x)%nat ->
  fit_linear x y = Return (NpFloat64 s, NpFloat64 i, r2) ->
  accepted x (stretched (List.length x) y) = true /\
  s = ssxym_of x (stretched (List.length x) y) / ssxm_of x /\
  i = mean (stretched (List.length x) y) - s * mean x /\
  r2 = py_square (rvalue_of x (stretched (List.length x) y)).
Proof.
  intros Hlen Hfit. rewrite (fit_linear_stretched x y Hlen) in Hfit.
  set (y' := stretched (List.length x) y) in *.
  unfold fit_linear in Hfit.
  destruct (linregress x y') as [res|e] eqn:Hlr; cbn [bind] in Hfit; [|discriminate].
  injection Hfit as Hs Hi Hr.
  assert (Hbody : linregress_body x y' = Return res).
  { unfold linregress, broadcast_arrays in Hlr.
    assert (Hx : too_small x = false).
    { unfold too_small, size. apply Z.leb_gt. lia. }
    destruct (List.length x =? List.length y')%nat eqn:He.
    - cbn [bind] in Hlr. rewrite !contains_nan_exact, Hx in Hlr. cbn [orb] in Hlr.
      apply Nat.eqb_eq in He.
      replace (too_small y') with false in Hlr
        by (symmetry; unfold too_small, size; rewrite <- He; apply Z.leb_gt; lia).
      exact Hlr.
    - exfalso. apply Nat.eqb_neq in He.
      replace (List.length x =? 1)%nat with false in Hlr
        by (symmetry; apply Nat.eqb_neq; lia).
      destruct (List.length y' =? 1)%nat eqn:H1; [|discriminate].
      apply Nat.eqb_eq in H1. unfold y', stretched in H1.
      destruct y as [|c [|d y]]; cbn [List.length] in H1; try lia.
      rewrite repeat_length in H1. lia. }
  destruct (linregress_body_Return_inv x y' res Hbody) as (Hacc & Hslope & Hint & Hrv).
  rewrite Hslope in Hs. injection Hs as Hs. rewrite Hint in Hi. injection Hi as Hi.
  change (ssxym_of x y' / ssxm_of x = s) in Hs.
  change (mean y' - ssxym_of x y' / ssxm_of x * mean x = i) in Hi.
  rewrite Hs in Hi. rewrite Hrv in Hr. repeat split; congruence.
Qed.

(** Refitting the line of an accepted series. *)
Lemma refit_accepted (x y : list R) (s i : R) :
  (2 <= List.length x)%nat -> accepted x y = true ->
  s = ssxym_of x y / ssxm_of x -> i = mean y - s * mean x ->
  exists r2',
    fit_linear x (map (fun xi => s * xi + i) x) =
    Return (NpFloat64 s, NpFloat64 i, r2').
Proof.
  intros Hlen Hacc Hs Hi.
  destruct (accepted_inv x y Hlen Hacc) as (Hxy & Hx & Hguard).
  set (y' := map (fun xi => s * xi + i) x).
  pose proof (ssxm_nonzero x Hlen Hguard) as Hnz.
  assert (Hacc' : accepted x y' = true).
  { unfold accepted in *. apply andb_prop in Hacc as [Hacc _].
    apply andb_prop in Hacc as [Hne Hg]. rewrite Hg.
    assert (Hsz : size y' = size x) by (unfold size, y'; rewrite length_map; reflexivity).
    rewrite Hsz, Z.eqb_refl.
    apply negb_true_iff, orb_false_elim in Hne as [Hne _]. rewrite Hne.
    reflexivity. }
  rewrite (fit_linear_accepted x y' Hlen Hacc').
  eexists.
  assert (Hxy' : ssxym_of x y' = s * ssxm_of x).
  { unfold ssxym_of, ssxm_of, y'. rewrite (center_affine s i x Hx), !dot_Rsum.
    rewrite Rsum_zip_mul_scale. cbn [mul exact]. ring. }
  assert (Hslope' : ssxym_of x y' / ssxm_of x = s).
  { rewrite Hxy'. field. exact Hnz. }
  rewrite Hslope'. unfold y'. rewrite (mean_affine s i x Hx).
  repeat f_equal. rewrite Hi. ring.
Qed.

(** C7, in exact arithmetic: on a series of at least two points on which
    [fit_linear] succeeds, refitting the predicted values
    [slope * x + intercept] returns the same slope and intercept. *)
Theorem refit_exact (x y : list R) (s i : R) (r2 : value R) :
  (2 <= List.length x)%nat ->
  fit_linear x y = Return (NpFloat64 s, NpFloat64 i, r2) ->
  exists r2',
    fit_linear x (map (fun xi => s * xi + i) x) =
    Return (NpFloat64 s, NpFloat64 i, r2').
Proof.
  intros Hlen Hfit.
  destruct (fit_linear_exact_inv x y s i r2 Hlen Hfit) as (Hacc & Hs & Hi & _).
  exact (refit_accepted x _ s i Hlen Hacc Hs Hi).
Qed.

(** In exact arithmetic [np.maximum] and [np.minimum] are the maximum
    and the minimum of two real numbers. *)
Lemma np_maximum_exact (a b : R) : np_maximum a b = Rmax a b.
Proof.
  unfold np_maximum, is_nan. cbn [eqb ltb exact].
  destruct (Req_dec_T a a); [|congruence]. cbn [negb].
  unfold Rmax. destruct (Rlt_dec b a), (Rle_dec a b); lra.
Qed.

Lemma np_minimum_exact (a b : R) : np_minimum a b = Rmin a b.
Proof.
  unfold np_minimum, is_nan. cbn [eqb ltb exact].
  destruct (Req_dec_T a a); [|congruence]. cbn [negb].
  unfold Rmin. destruct (Rlt_dec a b), (Rle_dec a b); lra.
Qed.

(** Three points that are not on a line: the least-squares line through
    (0, 0), (1, 1) and (2, 5) has slope 5/2 and intercept -1/2. *)
Lemma three_point_guard : (amax [0; 1; 2] =? amin [0; 1; 2])%sc = false.
Proof.
  unfold amax, amin, reduce. cbn [fold_left].
  rewrite !np_maximum_exact, !np_minimum_exact.
  rewrite (Rmax_right 0 1), (Rmax_right 1 2), (Rmin_left 0 1), (Rmin_left 0 2) by lra.
  cbn [eqb exact]. destruct (Req_dec_T 2 0); [lra|reflexivity].
Qed.

Lemma three_point_fit :
  fit_linear [0; 1; 2] [0; 1; 5] =
  Return (NpFloat64 (5 / 2), NpFloat64 (- 1 / 2),
          py_square (rvalue_of [0; 1; 2] [0; 1; 5])).
Proof.
  assert (Hacc : accepted [0; 1; 2] [0; 1; 5] = true).
  { unfold accepted. rewrite three_point_guard. reflexivity. }
  rewrite (fit_linear_accepted [0; 1; 2] [0; 1; 5] (le_S 2 2 (le_n 2)) Hacc).
  assert (Hs : ssxym_of [0; 1; 2] [0; 1; 5] / ssxm_of [0; 1; 2] = 5 / 2).
  { unfold ssxym_of, ssxm_of, dot, center, mean, np_sum, reduce, size.
    cbn. field. }
  rewrite Hs.
  assert (Hi : mean [0; 1; 5] - 5 / 2 * mean [0; 1; 2] = - 1 / 2).
  { unfold mean, np_sum, reduce, size. cbn. field. }
  rewrite Hi. reflexivity.
Qed.

Lemma refit_exact_witness :
  fit_linear [0; 1; 2] [0; 1; 5] =
    Return (NpFloat64 (5 / 2), NpFloat64 (- 1 / 2),
            py_square (rvalue_of [0; 1; 2] [0; 1; 5])) /\
  exists r2',
    fit_linear [0; 1; 2] (map (fun xi => 5 / 2 * xi + - 1 / 2) [0; 1; 2]) =
      Return (NpFloat64 (5 / 2), NpFloat64 (- 1 / 2), r2').
Proof.
  split; [exact three_point_fit|].
  exact (refit_exact [0; 1; 2] [0; 1; 5] (5 / 2) (- 1 / 2) _
           (le_S 2 2 (le_n 2)) three_point_fit).
Defined.

(** In exact arithmetic [extract_D] is strictly decreasing in [|slope|]. *)
Lemma extract_D_exact_decreasing (s1 s2 : R) :
  s1 <> 0 -> Rabs s1 < Rabs s2 -> extract_D_num s2 < extract_D_num s1.
Proof.
  intros Hnz Hlt. unfold extract_D_num, Mw, Ci, Co, dec.
  cbn [of_Z sub mul div absv exact].
  change (10 ^ 5)%Z with 100000%Z. change (10 ^ 1)%Z with 10%Z.
  change (10 ^ 2)%Z with 100%Z.
  pose proof (Rabs_pos_lt s1 Hnz) as H1.
  unfold Rdiv at 1 5. apply Rmult_lt_compat_l; [lra|].
  apply Rinv_lt_contravar; [nra|exact Hlt].
Qed.

Local Open Scope float_scope.

(** C7, as stated, fails in binary64: the series x = [0, 1],
    y = [1, 1.3] fits to slope 0.30000000000000004 and intercept
    0.99999999999999989; the predicted values refit to slope
    0.29999999999999993 and intercept 1. *)
Lemma refit_binary64_differs :
  exists r2 r2',
    fit_linear [0; 1] [1; 1.3] =
      Return (NpFloat64 0.30000000000000004, NpFloat64 0.99999999999999989, r2) /\
    fit_linear [0; 1]
      (map (fun xi => 0.30000000000000004 * xi + 0.99999999999999989) [0; 1]) =
      Return (NpFloat64 0.29999999999999993, NpFloat64 1, r2') /\
    (0.30000000000000004 =? 0.29999999999999993)%float = false /\
    (0.99999999999999989 =? 1)%float = false.
Proof. eexists _, _. repeat split; vm_compute; reflexivity. Qed.

(** * Further properties *)

Local Open Scope R_scope.

(** ** A two-point series *)

Lemma unit_pair_guard : (amax [0; 1] =? amin [0; 1])%sc = false.
Proof.
  unfold amax, amin, reduce, np_maximum, np_minimum, is_nan.
  cbn [fold_left eqb ltb exact].
  destruct (Req_dec_T 0 0); [|lra]. cbn [negb].
  destruct (Rlt_dec 1 0); [lra|]. destruct (Rlt_dec 0 1); [|lra].
  destruct (Req_dec_T 1 0); [lra|reflexivity].
Qed.

(** The line through two points at thicknesses 0 and 1. *)
Lemma two_point_fit (y0 y1 : R) :
  fit_linear [0; 1] [y0; y1] =
  Return (NpFloat64 (y1 - y0), NpFloat64 y0, py_square (rvalue_of [0; 1] [y0; y1])).
Proof.
  assert (Hacc : accepted [0; 1] [y0; y1] = true).
  { unfold accepted. rewrite unit_pair_guard. reflexivity. }
  rewrite (fit_linear_accepted [0; 1] [y0; y1] (le_n 2) Hacc).
  assert (Hs : ssxym_of [0; 1] [y0; y1] / ssxm_of [0; 1] = y1 - y0).
  { unfold ssxym_of, ssxm_of, dot, center, mean, np_sum, reduce, size.
    cbn. field. }
  rewrite Hs.
  assert (Hi : mean [y0; y1] - (y1 - y0) * mean [0; 1] = y0).
  { unfold mean, np_sum, reduce, size. cbn. field. }
  rewrite Hi. reflexivity.
Qed.

Lemma rising_fit :
  fit_linear [0; 1] [1; 3] =
  Return (NpFloat64 2, NpFloat64 1, py_square (rvalue_of [0; 1] [1; 3])).
Proof. rewrite two_point_fit. repeat f_equal. lra. Qed.

Lemma falling_fit :
  fit_linear [0; 1] [3; 1] =
  Return (NpFloat64 (-2), NpFloat64 3, py_square (rvalue_of [0; 1] [3; 1])).
Proof. rewrite two_point_fit. repeat f_equal. lra. Qed.


(** ** Least squares in exact arithmetic *)

Local Open Scope R_scope.

Lemma Rsum_cons (a : R) (l : list R) : Rsum (a :: l) = a + Rsum l.
Proof. reflexivity. Qed.

Lemma Rsum_map_nonneg {A} (f : A -> R) (l : list A) :
  (forall a, 0 <= f a) -> 0 <= Rsum (map f l).
Proof.
  intros Hf. induction l as [|a l IH]; cbn [map]; [unfold Rsum; cbn; lra|].
  rewrite Rsum_cons. pose proof (Hf a). lra.
Qed.

Lemma Rsum_centred_products (m k : R) (x y : list R) :
  List.length x = List.length y ->
  Rsum (zip_mul (map (fun v => v - m) x) (map (fun v => v - k) y)) =
  Rsum (zip_mul x y) - m * Rsum y - k * Rsum x + INR (List.length x) * m * k.
Proof.
  revert y. induction x as [|a x IH]; intros [|b y] Hlen;
    cbn [List.length] in Hlen; try discriminate.
  - cbn. lra.
  - cbn [map zip_mul]. rewrite !Rsum_cons, IH by lia.
    cbn [List.length]. rewrite S_INR. cbn [mul exact]. ring.
Qed.

Lemma Rsum_residuals (a b : R) (x y : list R) :
  List.length x = List.length y ->
  Rsum (residuals a b x y) = Rsum y - a * Rsum x - INR (List.length x) * b.
Proof.
  revert y. induction x as [|u x IH]; intros [|v y] Hlen;
    cbn [List.length] in Hlen; try discriminate.
  - cbn. lra.
  - cbn [residuals]. rewrite !Rsum_cons, IH by lia.
    cbn [List.length]. rewrite S_INR. ring.
Qed.

Lemma Rsum_x_residuals (a b : R) (x y : list R) :
  List.length x = List.length y ->
  Rsum (zip_mul x (residuals a b x y)) =
  Rsum (zip_mul x y) - a * Rsum (zip_mul x x) - b * Rsum x.
Proof.
  revert y. induction x as [|u x IH]; intros [|v y] Hlen;
    cbn [List.length] in Hlen; try discriminate.
  - cbn. lra.
  - cbn [residuals zip_mul]. rewrite !Rsum_cons, IH by lia.
    cbn [mul exact]. ring.
Qed.

Lemma sse_expand (a b : R) (x y : list R) :
  List.length x = List.length y ->
  sse a b x y =
  Rsum (zip_mul y y) - 2 * a * Rsum (zip_mul x y) - 2 * b * Rsum y +
  a * a * Rsum (zip_mul x x) + 2 * a * b * Rsum x +
  INR (List.length x) * b * b.
Proof.
  unfold sse. revert y. induction x as [|u x IH]; intros [|v y] Hlen;
    cbn [List.length] in Hlen; try discriminate.
  - cbn. lra.
  - cbn [residuals map zip_mul]. rewrite !Rsum_cons, IH by lia.
    cbn [List.length]. rewrite S_INR. cbn [mul exact]. ring.
Qed.

Lemma sse_nonneg (a b : R) (x y : list R) : 0 <= sse a b x y.
Proof. unfold sse. apply Rsum_map_nonneg. intros r. nra. Qed.

Lemma Rsum_line_squares (u w : R) (x : list R) :
  0 <= u * u * Rsum (zip_mul x x) + 2 * u * w * Rsum x +
       INR (List.length x) * w * w.
Proof.
  induction x as [|v x IH].
  - cbn. lra.
  - cbn [zip_mul List.length]. rewrite !Rsum_cons, S_INR. cbn [mul exact].
    pose proof (Rle_0_sqr (u * v + w)) as Hsq. unfold Rsqr in Hsq. nra.
Qed.

(** The variance and covariance of [linregress], by raw sums. *)
Lemma ssxym_raw (x y : list R) :
  List.length x = List.length y -> x <> [] ->
  ssxym_of x y =
  (Rsum (zip_mul x y) - Rsum x * Rsum y / INR (List.length x)) /
  INR (List.length x).
Proof.
  intros Hlen Hx. pose proof (INR_length_pos x Hx) as Hn.
  unfold ssxym_of. rewrite dot_Rsum. unfold center. cbn [sub mul div of_Z exact].
  rewrite Rsum_centred_products by exact Hlen.
  rewrite !mean_Rsum, size_IZR, <- Hlen. field. lra.
Qed.

Lemma ssxm_raw (x : list R) :
  x <> [] ->
  ssxm_of x =
  (Rsum (zip_mul x x) - Rsum x * Rsum x / INR (List.length x)) /
  INR (List.length x).
Proof.
  intros Hx. pose proof (INR_length_pos x Hx) as Hn.
  unfold ssxm_of. rewrite dot_Rsum. unfold center. cbn [sub mul div of_Z exact].
  rewrite Rsum_centred_products by reflexivity.
  rewrite !mean_Rsum, size_IZR. field. lra.
Qed.

Lemma ssym_raw (x y : list R) :
  List.length x = List.length y -> x <> [] ->
  ssym_of x y =
  (Rsum (zip_mul y y) - Rsum y * Rsum y / INR (List.length x)) /
  INR (List.length x).
Proof.
  intros Hlen Hx. pose proof (INR_length_pos x Hx) as Hn.
  unfold ssym_of. rewrite dot_Rsum. unfold center. cbn [sub mul div of_Z exact].
  rewrite Rsum_centred_products by reflexivity.
  rewrite !mean_Rsum, size_IZR, <- Hlen. field. lra.
Qed.

Lemma ssxm_pos (x : list R) :
  (2 <= List.length x)%nat -> (amax x =? amin x)%sc = false -> 0 < ssxm_of x.
Proof.
  intros Hlen Hg. pose proof (ssxm_nonzero x Hlen Hg) as Hnz.
  assert (0 <= ssxm_of x); [|lra].
  unfold ssxm_of. rewrite dot_Rsum. cbn [mul div of_Z exact]. rewrite size_IZR.
  assert (Hn : 0 < INR (List.length x)) by (apply lt_0_INR; lia).
  pose proof (sumsq_nonneg (center x)).
  apply Rmult_le_pos; [assumption|].
  unfold Rdiv. rewrite Rmult_1_l. left. apply Rinv_0_lt_compat. exact Hn.
Qed.

(** The slope and intercept of an accepted series, by raw sums: the
    normal equations of least squares. *)
Lemma fit_normal (x y : list R) (s i : R) :
  (2 <= List.length x)%nat -> accepted x y = true ->
  s = ssxym_of x y / ssxm_of x -> i = mean y - s * mean x ->
  Rsum y - s * Rsum x - INR (List.length x) * i = 0 /\
  Rsum (zip_mul x y) - s * Rsum (zip_mul x x) - i * Rsum x = 0.
Proof.
  intros Hlen Hacc Hs Hi.
  destruct (accepted_inv x y Hlen Hacc) as (Hxy & Hx & Hg).
  pose proof (ssxm_pos x Hlen Hg) as Hv.
  pose proof (INR_length_pos x Hx) as Hn.
  assert (Hs' : s * ssxm_of x = ssxym_of x y) by (rewrite Hs; field; lra).
  rewrite ssxm_raw in Hs' by exact Hx. rewrite ssxym_raw in Hs' by assumption.
  rewrite !mean_Rsum, <- Hxy in Hi.
  set (n := INR (List.length x)) in *. set (Sx := Rsum x) in *.
  set (Sy := Rsum y) in *. set (Sxx := Rsum (zip_mul x x)) in *.
  set (Sxy := Rsum (zip_mul x y)) in *.
  assert (Hs2 : s * (Sxx - Sx * Sx / n) = Sxy - Sx * Sy / n).
  { apply (Rmult_eq_reg_r (/ n)); [|apply Rinv_neq_0_compat; lra].
    unfold Rdiv in *. lra. }
  split.
  - rewrite Hi. field. lra.
  - rewrite Hi.
    transitivity ((Sxy - Sx * Sy / n) - s * (Sxx - Sx * Sx / n)); [field; lra|].
    rewrite Hs2. ring.
Qed.

Lemma residuals_nil (a b : R) (x : list R) : residuals a b x [] = [].
Proof. destruct x; reflexivity. Qed.

Lemma zip_mul_nil (x : list R) : zip_mul x [] = [].
Proof. destruct x; reflexivity. Qed.

Lemma Rsum_repeat (c : R) (n : nat) : Rsum (repeat c n) = INR n * c.
Proof.
  induction n as [|n IH]; [cbn; lra|].
  cbn [repeat]. rewrite Rsum_cons, IH, S_INR. ring.
Qed.

Lemma Rsum_zip_mul_zeros (l : list R) (n : nat) :
  Rsum (zip_mul l (repeat 0 n)) = 0.
Proof.
  revert n. induction l as [|a l IH]; intros [|n]; try reflexivity.
  cbn [repeat zip_mul]. rewrite Rsum_cons, IH. cbn [mul exact]. ring.
Qed.

(** A [y] of length 1, repeated to the length of [x], is fitted by the
    flat line through it. *)
Lemma flat_fit (x : list R) (c s i : R) :
  (2 <= List.length x)%nat ->
  s = ssxym_of x (repeat c (List.length x)) / ssxm_of x ->
  i = mean (repeat c (List.length x)) - s * mean x ->
  s = 0 /\ i = c.
Proof.
  intros Hlen Hs Hi.
  assert (Hn : 0 < INR (List.length x)) by (apply lt_0_INR; lia).
  assert (Hm : mean (repeat c (List.length x)) = c).
  { rewrite mean_Rsum, Rsum_repeat, repeat_length. field. lra. }
  assert (Hc : ssxym_of x (repeat c (List.length x)) = 0).
  { unfold ssxym_of. rewrite dot_Rsum. unfold center at 2. rewrite Hm, map_repeat.
    cbn [sub exact]. replace (c - c) with 0 by ring.
    rewrite Rsum_zip_mul_zeros. cbn [mul exact]. ring. }
  rewrite Hc in Hs. assert (Hs0 : s = 0) by (rewrite Hs; unfold Rdiv; ring).
  split; [exact Hs0|]. rewrite Hi, Hm, Hs0. ring.
Qed.

(** A returned fit of at least two [x]: either the two sequences have the
    same length and pass the guards, or [y] has length 1 and the fit is
    the flat line through it. *)
Lemma fit_linear_exact_cases (x y : list R) (s i : R) (r2 : value R) :
  (2 <= List.length x)%nat ->
  fit_linear x y = Return (NpFloat64 s, NpFloat64 i, r2) ->
  (accepted x y = true /\ s = ssxym_of x y / ssxm_of x /\
   i = mean y - s * mean x /\ r2 = py_square (rvalue_of x y)) \/
  (exists c, y = [c] /\ s = 0 /\ i = c).
Proof.
  intros Hlen Hfit.
  destruct (fit_linear_exact_inv x y s i r2 Hlen Hfit) as (Hacc & Hs & Hi & Hr).
  destruct y as [|c [|d y]]; cbn [stretched] in *.
  - left. repeat split; assumption.
  - right. exists c. split; [reflexivity|]. exact (flat_fit x c s i Hlen Hs Hi).
  - left. repeat split; assumption.
Qed.

(** X1: the fitted line passes through the centroid of the data, its
    residuals sum to zero, and they are orthogonal to the thicknesses. *)
Theorem fit_linear_normal_equations (x y : list R) (s i : R) (r2 : value R) :
  (2 <= List.length x)%nat ->
  fit_linear x y = Return (NpFloat64 s, NpFloat64 i, r2) ->
  s * mean x + i = mean y /\
  Rsum (residuals s i x y) = 0 /\
  Rsum (zip_mul x (residuals s i x y)) = 0.
Proof.
  intros Hlen Hfit.
  destruct (fit_linear_exact_cases x y s i r2 Hlen Hfit)
    as [(Hacc & Hs & Hi & _)|(c & -> & -> & ->)].
  - destruct (accepted_inv x y Hlen Hacc) as (Hxy & Hx & Hg).
    destruct (fit_normal x y s i Hlen Hacc Hs Hi) as (H1 & H2).
    split; [rewrite Hi; ring|].
    rewrite Rsum_residuals, Rsum_x_residuals by exact Hxy. split; assumption.
  - destruct x as [|u x]; cbn [List.length] in Hlen; [lia|].
    rewrite (mean_Rsum [c]). cbn [residuals zip_mul List.length INR].
    rewrite residuals_nil, zip_mul_nil, !Rsum_cons. cbn [mul exact].
    unfold Rsum. cbn [fold_right].
    repeat split; [field|ring|ring].
Qed.

Lemma fit_linear_normal_equations_witness :
  2 * mean [0; 1] + 1 = mean [1; 3] /\
  Rsum (residuals 2 1 [0; 1] [1; 3]) = 0 /\
  Rsum (zip_mul [0; 1] (residuals 2 1 [0; 1] [1; 3])) = 0.
Proof. exact (fit_linear_normal_equations [0; 1] [1; 3] 2 1 _ (le_n 2) rising_fit). Defined.

(** X2: least squares: no line has a smaller sum of squared residuals than
    the one [fit_linear] returns. *)
Theorem fit_linear_least_squares (x y : list R) (s i : R) (r2 : value R) (a b : R) :
  (2 <= List.length x)%nat ->
  fit_linear x y = Return (NpFloat64 s, NpFloat64 i, r2) ->
  sse s i x y <= sse a b x y.
Proof.
  intros Hlen Hfit.
  destruct (fit_linear_exact_cases x y s i r2 Hlen Hfit)
    as [(Hacc & Hs & Hi & _)|(c & -> & -> & ->)].
  2:{ destruct x as [|u x]; cbn [List.length] in Hlen; [lia|].
      pose proof (sse_nonneg a b (u :: x) [c]) as Hab.
      replace (sse 0 c (u :: x) [c]) with 0; [exact Hab|].
      unfold sse. cbn [residuals map]. rewrite residuals_nil, Rsum_cons.
      unfold Rsum. cbn [map fold_right]. ring. }
  destruct (accepted_inv x y Hlen Hacc) as (Hxy & Hx & Hg).
  destruct (fit_normal x y s i Hlen Hacc Hs Hi) as (H1 & H2).
  rewrite !sse_expand by exact Hxy.
  pose proof (Rsum_line_squares (s - a) (i - b) x) as HQ.
  set (n := INR (List.length x)) in *. set (Sx := Rsum x) in *.
  set (Sy := Rsum y) in *. set (Sxx := Rsum (zip_mul x x)) in *.
  set (Sxy := Rsum (zip_mul x y)) in *. set (Syy := Rsum (zip_mul y y)) in *.
  assert (Hid :
    (Syy - 2 * a * Sxy - 2 * b * Sy + a * a * Sxx + 2 * a * b * Sx + n * b * b) -
    (Syy - 2 * s * Sxy - 2 * i * Sy + s * s * Sxx + 2 * s * i * Sx + n * i * i) =
    2 * (s - a) * (Sxy - s * Sxx - i * Sx) + 2 * (i - b) * (Sy - s * Sx - n * i) +
    ((s - a) * (s - a) * Sxx + 2 * (s - a) * (i - b) * Sx + n * (i - b) * (i - b)))
    by ring.
  rewrite H1, H2 in Hid. lra.
Qed.

Lemma fit_linear_least_squares_witness :
  sse 2 1 [0; 1] [1; 3] <= sse 0 0 [0; 1] [1; 3].
Proof. exact (fit_linear_least_squares [0; 1] [1; 3] 2 1 _ 0 0 (le_n 2) rising_fit). Defined.

Lemma zip_mul_map_self (f : R -> R) (l : list R) :
  zip_mul (map f l) (map f l) = map (fun v => f v * f v) l.
Proof. induction l as [|v l IH]; cbn [map zip_mul]; [reflexivity|]. rewrite IH. reflexivity. Qed.

Lemma sst_ssym (x y : list R) :
  List.length x = List.length y -> x <> [] ->
  sst y = INR (List.length x) * ssym_of x y.
Proof.
  intros Hlen Hx. pose proof (INR_length_pos x Hx) as Hn.
  unfold sst, ssym_of. rewrite dot_Rsum. unfold center.
  rewrite zip_mul_map_self. cbn [sub mul div of_Z exact]. rewrite size_IZR.
  field. lra.
Qed.

Lemma sse_fit (x y : list R) (s i : R) :
  (2 <= List.length x)%nat -> accepted x y = true ->
  s = ssxym_of x y / ssxm_of x -> i = mean y - s * mean x ->
  sse s i x y = INR (List.length x) * (ssym_of x y - s * ssxym_of x y).
Proof.
  intros Hlen Hacc Hs Hi.
  destruct (accepted_inv x y Hlen Hacc) as (Hxy & Hx & Hg).
  destruct (fit_normal x y s i Hlen Hacc Hs Hi) as (H1 & H2).
  pose proof (INR_length_pos x Hx) as Hn.
  rewrite sse_expand, ssym_raw, ssxym_raw by assumption.
  set (n := INR (List.length x)) in *. set (Sx := Rsum x) in *.
  set (Sy := Rsum y) in *. set (Sxx := Rsum (zip_mul x x)) in *.
  set (Sxy := Rsum (zip_mul x y)) in *. set (Syy := Rsum (zip_mul y y)) in *.
  assert (Hi' : i = (Sy - s * Sx) / n) by (field_simplify_eq; lra).
  transitivity ((Syy - s * Sxy - i * Sy) - s * (Sxy - s * Sxx - i * Sx) -
                i * (Sy - s * Sx - n * i)); [ring|].
  rewrite H1, H2, Hi'. field. lra.
Qed.

(** The square of the correlation coefficient of an accepted series,
    against the sums of squares [sse] and [sst]. *)
Lemma r_squared_by_sums (x y : list R) (s i : R) :
  (2 <= List.length x)%nat -> accepted x y = true ->
  s = ssxym_of x y / ssxm_of x -> i = mean y - s * mean x ->
  sst y <> 0 ->
  0 <= num (py_square (rvalue_of x y)) <= 1 /\
  num (py_square (rvalue_of x y)) = 1 - sse s i x y / sst y.
Proof.
  intros Hlen Hacc Hs Hi Hne.
  destruct (accepted_inv x y Hlen Hacc) as (Hxy & Hx & Hg).
  pose proof (ssxm_pos x Hlen Hg) as Hv.
  pose proof (INR_length_pos x Hx) as Hn.
  pose proof (sse_fit x y s i Hlen Hacc Hs Hi) as Hsse.
  pose proof (sse_nonneg s i x y) as Hsse0.
  pose proof (sst_ssym x y Hxy Hx) as Hsst.
  assert (Ht0 : 0 <= ssym_of x y).
  { assert (H0 : 0 <= sst y) by (unfold sst; apply Rsum_map_nonneg; intros a; apply Rle_0_sqr).
    rewrite Hsst in H0.
    apply (Rmult_le_reg_l (INR (List.length x))); [exact Hn|]. lra. }
  set (n := INR (List.length x)) in *.
  set (V := ssxm_of x) in *. set (C := ssxym_of x y) in *.
  set (Ty := ssym_of x y) in *.
  assert (HsV : s * V = C) by (rewrite Hs; field; lra).
  assert (HsC : s * C <= Ty).
  { rewrite Hsse in Hsse0.
    apply (Rmult_le_reg_l n); [exact Hn|]. lra. }
  assert (HCS : C * C <= V * Ty).
  { replace (C * C) with (V * (s * C)) by (rewrite <- HsV; ring).
    apply Rmult_le_compat_l; lra. }
  unfold rvalue_of. fold V C Ty. cbn [eqb ltb of_Z exact].
  destruct (Req_dec_T V 0) as [HV0|_]; [lra|]. cbn [orb].
  destruct (Req_dec_T Ty 0) as [HT0|HTn].
  - exfalso. apply Hne. rewrite Hsst, HT0. ring.
  - assert (HT : 0 < Ty) by lra.
    assert (Hprod : 0 < V * Ty) by (apply Rmult_lt_0_compat; assumption).
    pose proof (sqrt_lt_R0 (V * Ty) Hprod) as Hq.
    pose proof (sqrt_sqrt (V * Ty) (Rlt_le _ _ Hprod)) as Hqq.
    cbn [div sqrtv mul exact].
    set (q := sqrt (V * Ty)) in *.
    assert (Hrr : C / q * (C / q) = C * C / (V * Ty)).
    { rewrite <- Hqq. field. lra. }
    assert (Hr1 : C / q * (C / q) <= 1).
    { rewrite Hrr. apply (Rmult_le_reg_r (V * Ty)); [exact Hprod|].
      unfold Rdiv. rewrite Rmult_assoc, Rinv_l by lra. lra. }
    assert (Hr0 : 0 <= C / q * (C / q)) by nra.
    destruct (Rlt_dec 1 (C / q)) as [Hgt|_]; [nra|].
    destruct (Rlt_dec (C / q) (-1)) as [Hlt|_]; [nra|].
    cbn [py_square num mul exact]. split; [lra|].
    rewrite Hrr, Hsse, Hsst. fold n. rewrite <- HsV. field. lra.
Qed.

(** X3: in exact arithmetic, when the [y] values are not all equal, the
    R² of a fit lies in [0, 1] and is the fraction of the variance of [y]
    that the fitted line explains. *)
Theorem fit_linear_r_squared_exact (x y : list R) (s i : R) (r2 : value R) :
  (2 <= List.length x)%nat ->
  fit_linear x y = Return (NpFloat64 s, NpFloat64 i, r2) ->
  sst y <> 0 ->
  0 <= num r2 <= 1 /\ num r2 = 1 - sse s i x y / sst y.
Proof.
  intros Hlen Hfit Hne.
  destruct (fit_linear_exact_cases x y s i r2 Hlen Hfit)
    as [(Hacc & Hs & Hi & ->)|(c & -> & _)].
  - apply r_squared_by_sums; assumption.
  - exfalso. apply Hne. unfold sst. rewrite (mean_Rsum [c]).
    cbn [map List.length INR]. unfold Rsum. cbn [fold_right]. field.
Qed.

Lemma sst_rising : sst [1; 3] <> 0.
Proof.
  replace (sst [1; 3]) with 2; [lra|].
  unfold sst. rewrite (mean_Rsum [1; 3]).
  cbn [map List.length INR]. unfold Rsum. cbn [fold_right]. field.
Qed.

Lemma fit_linear_r_squared_exact_witness :
  0 <= num (py_square (rvalue_of [0; 1] [1; 3])) <= 1 /\
  num (py_square (rvalue_of [0; 1] [1; 3])) = 1 - sse 2 1 [0; 1] [1; 3] / sst [1; 3].
Proof.
  exact (fit_linear_r_squared_exact [0; 1] [1; 3] 2 1 _ (le_n 2) rising_fit sst_rising).
Defined.

(** ** Changes of scale and origin, in exact arithmetic *)

Lemma accepted_map_y (f : R -> R) (x y : list R) :
  accepted x y = true -> accepted x (map f y) = true.
Proof.
  unfold accepted, size. rewrite length_map. intros Hacc. exact Hacc.
Qed.

Lemma ssxym_affine_y (a b : R) (x y : list R) :
  y <> [] -> ssxym_of x (map (fun v => a * v + b) y) = a * ssxym_of x y.
Proof.
  intros Hy. unfold ssxym_of. rewrite (center_affine a b y Hy), !dot_Rsum.
  rewrite Rsum_zip_mul_scale. cbn [mul exact]. ring.
Qed.

(** The fit of the values [a * y + b] of an accepted series. *)
Lemma affine_y_fit (x y : list R) (s i a b : R) :
  (2 <= List.length x)%nat -> accepted x y = true ->
  s = ssxym_of x y / ssxm_of x -> i = mean y - s * mean x ->
  fit_linear x (map (fun v => a * v + b) y) =
  Return (NpFloat64 (a * s), NpFloat64 (a * i + b),
          py_square (rvalue_of x (map (fun v => a * v + b) y))).
Proof.
  intros Hlen Hacc Hs Hi.
  destruct (accepted_inv x y Hlen Hacc) as (Hxy & Hx & Hg).
  pose proof (ssxm_pos x Hlen Hg) as Hv.
  assert (Hy : y <> []) by (destruct y; [destruct x; cbn in Hxy; congruence|congruence]).
  rewrite (fit_linear_accepted x _ Hlen (accepted_map_y _ x y Hacc)).
  f_equal. f_equal. f_equal.
  - f_equal. rewrite (ssxym_affine_y a b x y Hy). cbn [div mul exact].
    rewrite Hs. field. lra.
  - f_equal. rewrite (ssxym_affine_y a b x y Hy), (mean_affine a b y Hy).
    cbn [sub div mul exact]. rewrite Hi, Hs. field. lra.
Qed.

(** X4: replacing every [y] by [a * y + b] multiplies the slope by [a] and
    maps the intercept to [a * intercept + b]. *)
Theorem fit_linear_affine_y (x y : list R) (s i : R) (r2 : value R) (a b : R) :
  (2 <= List.length x)%nat ->
  fit_linear x y = Return (NpFloat64 s, NpFloat64 i, r2) ->
  exists r2',
    fit_linear x (map (fun v => a * v + b) y) =
    Return (NpFloat64 (a * s), NpFloat64 (a * i + b), r2').
Proof.
  intros Hlen Hfit.
  destruct (fit_linear_exact_inv x y s i r2 Hlen Hfit) as (Hacc & Hs & Hi & _).
  eexists. rewrite (fit_linear_stretched x _ Hlen), stretched_map.
  apply affine_y_fit; assumption.
Qed.

Lemma fit_linear_affine_y_witness :
  exists r2',
    fit_linear [0; 1] (map (fun v => 10 * v + 5) [1; 3]) =
    Return (NpFloat64 (10 * 2), NpFloat64 (10 * 1 + 5), r2').
Proof. exact (fit_linear_affine_y [0; 1] [1; 3] 2 1 _ 10 5 (le_n 2) rising_fit). Defined.

(** X5: points that lie on a line are fitted by that line, and when the
    line is not flat the R² is 1. *)
Theorem fit_linear_recovers_line (x : list R) (a b : R) :
  (2 <= List.length x)%nat -> (amax x =? amin x)%sc = false ->
  exists r2,
    fit_linear x (map (fun v => a * v + b) x) =
      Return (NpFloat64 a, NpFloat64 b, r2) /\
    (a <> 0 -> num r2 = 1).
Proof.
  intros Hlen Hg.
  assert (Hx : x <> []) by (destruct x; cbn [List.length] in Hlen; [lia|congruence]).
  pose proof (ssxm_pos x Hlen Hg) as Hv.
  set (y := map (fun v => a * v + b) x).
  assert (Hacc : accepted x y = true).
  { unfold accepted, size, y. rewrite length_map, Hg, Z.eqb_refl.
    destruct x; [congruence|]. reflexivity. }
  assert (Hxy : ssxym_of x y = a * ssxm_of x).
  { unfold ssxym_of, ssxm_of, y. rewrite (center_affine a b x Hx), !dot_Rsum.
    rewrite Rsum_zip_mul_scale. cbn [mul exact]. ring. }
  assert (Hs : ssxym_of x y / ssxm_of x = a) by (rewrite Hxy; field; lra).
  assert (Hi : mean y - a * mean x = b)
    by (unfold y; rewrite (mean_affine a b x Hx); ring).
  assert (Hfit : fit_linear x y =
                 Return (NpFloat64 a, NpFloat64 b, py_square (rvalue_of x y))).
  { rewrite (fit_linear_accepted x y Hlen Hacc).
    rewrite Hs, Hi. reflexivity. }
  exists (py_square (rvalue_of x y)). split; [exact Hfit|].
  intros Ha.
  assert (Hsse : sse a b x y = 0).
  { unfold sse, y. clear. induction x as [|v x IH]; [reflexivity|].
    cbn [map residuals]. rewrite Rsum_cons. fold (map (fun v => a * v + b) x).
    rewrite IH. ring. }
  assert (Hsst : sst y <> 0).
  { assert (Hlen' : List.length x = List.length y) by (unfold y; rewrite length_map; reflexivity).
    rewrite (sst_ssym x y Hlen' Hx).
    assert (Hyy : ssym_of x y = a * a * ssxm_of x).
    { unfold ssym_of, ssxm_of, y. rewrite (center_affine a b x Hx), !dot_Rsum.
      rewrite zip_mul_map_self.
      replace (map (fun v => a * v * (a * v)) (center x))
        with (zip_mul (center x) (map (fun d => (a * a) * d) (center x))).
      - rewrite Rsum_zip_mul_scale. cbn [mul exact]. ring.
      - induction (center x) as [|d l IH]; [reflexivity|].
        cbn [map zip_mul]. rewrite IH. cbn [mul exact]. f_equal. ring. }
    rewrite Hyy. pose proof (INR_length_pos x Hx) as Hn.
    pose proof (Rsqr_pos_lt a Ha) as Haa. unfold Rsqr in Haa.
    apply Rgt_not_eq.
    apply Rmult_lt_0_compat; [exact Hn|].
    apply Rmult_lt_0_compat; [exact Haa|exact Hv]. }
  destruct (r_squared_by_sums x y a b Hlen Hacc (eq_sym Hs)
              ltac:(rewrite <- Hi; reflexivity) Hsst) as (_ & Hr).
  rewrite Hr, Hsse. field. exact Hsst.
Qed.

Lemma fit_linear_recovers_line_witness :
  exists r2,
    fit_linear [0; 1] (map (fun v => 2 * v + 1) [0; 1]) =
      Return (NpFloat64 2, NpFloat64 1, r2) /\
    (2 <> 0 -> num r2 = 1).
Proof. exact (fit_linear_recovers_line [0; 1] 2 1 (le_n 2) unit_pair_guard). Defined.

Lemma np_maximum_affine (c d u v : R) :
  0 < c -> np_maximum (c * u + d) (c * v + d) = c * np_maximum u v + d.
Proof.
  intros Hc. unfold np_maximum, is_nan. cbn [eqb ltb exact].
  destruct (Req_dec_T (c * u + d) (c * u + d)); [|congruence].
  destruct (Req_dec_T u u); [|congruence]. cbn [negb].
  destruct (Rlt_dec (c * v + d) (c * u + d)), (Rlt_dec v u); try reflexivity; nra.
Qed.

Lemma np_minimum_affine (c d u v : R) :
  0 < c -> np_minimum (c * u + d) (c * v + d) = c * np_minimum u v + d.
Proof.
  intros Hc. unfold np_minimum, is_nan. cbn [eqb ltb exact].
  destruct (Req_dec_T (c * u + d) (c * u + d)); [|congruence].
  destruct (Req_dec_T u u); [|congruence]. cbn [negb].
  destruct (Rlt_dec (c * u + d) (c * v + d)), (Rlt_dec u v); try reflexivity; nra.
Qed.

Lemma fold_left_affine (f : R -> R -> R) (c d : R) (l : list R) (u : R) :
  (forall u v, f (c * u + d) (c * v + d) = c * f u v + d) ->
  fold_left f (map (fun v => c * v + d) l) (c * u + d) = c * fold_left f l u + d.
Proof.
  intros Hf. revert u. induction l as [|v l IH]; intros u; [reflexivity|].
  cbn [map fold_left]. rewrite Hf. apply IH.
Qed.

Lemma guard_affine_x (c d : R) (x : list R) :
  0 < c -> x <> [] ->
  (amax (map (fun v => (c * v + d)%R) x) =?
   amin (map (fun v => (c * v + d)%R) x))%sc =
  (amax x =? amin x)%sc.
Proof.
  intros Hc Hx. destruct x as [|u x]; [congruence|].
  unfold amax, amin, reduce. cbn [map].
  rewrite !fold_left_affine
    by (intros; first [apply np_maximum_affine|apply np_minimum_affine]; exact Hc).
  cbn [eqb exact].
  destruct (Req_dec_T _ _) as [He|Hne], (Req_dec_T _ _) as [He'|Hne'];
    try reflexivity; exfalso.
  - apply Hne'. nra.
  - apply Hne. rewrite He'. reflexivity.
Qed.

Lemma Rsum_zip_mul_scale_l (s : R) (a b : list R) :
  Rsum (zip_mul (map (fun d => s * d) a) b) = s * Rsum (zip_mul a b).
Proof.
  revert b. induction a as [|x a IH]; intros [|y b];
    cbn [map zip_mul]; try (cbn; lra).
  rewrite !Rsum_cons, IH. cbn [mul exact]. ring.
Qed.

(** The fit of an accepted series against the thicknesses [c * x + d]. *)
Lemma affine_x_fit (x y : list R) (s i c d : R) :
  (2 <= List.length x)%nat -> 0 < c -> accepted x y = true ->
  s = ssxym_of x y / ssxm_of x -> i = mean y - s * mean x ->
  fit_linear (map (fun v => c * v + d) x) y =
  Return (NpFloat64 (s / c), NpFloat64 (i - s * d / c),
          py_square (rvalue_of (map (fun v => c * v + d) x) y)).
Proof.
  intros Hlen Hc Hacc Hs Hi.
  destruct (accepted_inv x y Hlen Hacc) as (Hxy & Hx & Hg).
  pose proof (ssxm_pos x Hlen Hg) as Hv.
  set (x' := map (fun v => c * v + d) x).
  assert (Hacc' : accepted x' y = true).
  { unfold accepted in *. unfold x'. rewrite (guard_affine_x c d x Hc Hx).
    unfold size in *. rewrite !length_map. exact Hacc. }
  assert (Hsz : size x' = size x) by (unfold size, x'; rewrite length_map; reflexivity).
  assert (Hxx : ssxm_of x' = c * c * ssxm_of x).
  { unfold ssxm_of. rewrite Hsz. unfold x'. rewrite (center_affine c d x Hx), !dot_Rsum.
    rewrite Rsum_zip_mul_scale, Rsum_zip_mul_scale_l. cbn [mul exact]. ring. }
  assert (Hxy' : ssxym_of x' y = c * ssxym_of x y).
  { unfold ssxym_of. rewrite Hsz. unfold x'. rewrite (center_affine c d x Hx), !dot_Rsum.
    rewrite Rsum_zip_mul_scale_l. cbn [mul exact]. ring. }
  assert (Hlen' : (2 <= List.length x')%nat) by (unfold x'; rewrite length_map; exact Hlen).
  rewrite (fit_linear_accepted x' y Hlen' Hacc').
  f_equal. f_equal. f_equal.
  - f_equal. rewrite Hxx, Hxy'. cbn [div mul exact]. rewrite Hs. field. lra.
  - f_equal. rewrite Hxx, Hxy'. unfold x'. rewrite (mean_affine c d x Hx).
    cbn [sub div mul exact]. rewrite Hi, Hs. field. lra.
Qed.

(** X6: measuring the thickness on another scale, [c * x + d] with
    [c > 0], divides the slope by [c] and moves the intercept to
    [i - s * d / c]. *)
Theorem fit_linear_affine_x (x y : list R) (s i : R) (r2 : value R) (c d : R) :
  (2 <= List.length x)%nat -> 0 < c ->
  fit_linear x y = Return (NpFloat64 s, NpFloat64 i, r2) ->
  exists r2',
    fit_linear (map (fun v => c * v + d) x) y =
    Return (NpFloat64 (s / c), NpFloat64 (i - s * d / c), r2').
Proof.
  intros Hlen Hc Hfit.
  destruct (fit_linear_exact_inv x y s i r2 Hlen Hfit) as (Hacc & Hs & Hi & _).
  eexists. rewrite fit_linear_stretched by (rewrite length_map; exact Hlen).
  rewrite length_map. apply affine_x_fit; assumption.
Qed.

Lemma fit_linear_affine_x_witness :
  exists r2',
    fit_linear (map (fun v => 2 * v + 7) [0; 1]) [1; 3] =
    Return (NpFloat64 (2 / 2), NpFloat64 (1 - 2 * 7 / 2), r2').
Proof.
  exact (fit_linear_affine_x [0; 1] [1; 3] 2 1 _ 2 7 (le_n 2) Rlt_0_2 rising_fit).
Defined.

(** X7: a change of units changes the extracted coefficient by the
    expected factor: with the thickness read as [c * x + d], [c > 0], and
    the WVTR as [a * y + b], [a <> 0], it is multiplied by [c / |a|]. *)
Theorem rescaled_series_coefficient
  (x y : list R) (s i : R) (r2 : value R) (c d a b : R) :
  (2 <= List.length x)%nat -> 0 < c -> a <> 0 -> s <> 0 ->
  fit_linear x y = Return (NpFloat64 s, NpFloat64 i, r2) ->
  exists s' i' r2',
    fit_linear (map (fun v => c * v + d) x) (map (fun v => a * v + b) y) =
      Return (NpFloat64 s', NpFloat64 i', r2') /\
    extract_D_num s' = c / Rabs a * extract_D_num s.
Proof.
  intros Hlen Hc Ha Hs Hfit.
  destruct (fit_linear_exact_inv x y s i r2 Hlen Hfit) as (Hacc & Hs0 & Hi0 & _).
  set (y' := stretched (List.length x) y) in *.
  pose proof (affine_y_fit x y' s i a b Hlen Hacc Hs0 Hi0) as Hfa.
  destruct (fit_linear_exact_inv _ _ _ _ _ Hlen Hfa) as (Hacc' & Hs' & Hi' & _).
  destruct (accepted_inv x y' Hlen Hacc) as (Hxy' & _ & _).
  rewrite stretched_length in Hacc', Hs', Hi' by (rewrite length_map; lia).
  pose proof (affine_x_fit x _ _ _ c d Hlen Hc Hacc' Hs' Hi') as Hfb.
  eexists _, _, _. split.
  { rewrite fit_linear_stretched by (rewrite length_map; exact Hlen).
    rewrite length_map, stretched_map. exact Hfb. }
  unfold extract_D_num. cbn [div mul absv exact].
  assert (Habs : Rabs (a * s / c) = Rabs a * Rabs s / c).
  { unfold Rdiv. rewrite !Rabs_mult, Rabs_inv, (Rabs_pos_eq c) by lra. reflexivity. }
  rewrite Habs.
  pose proof (Rabs_pos_lt a Ha). pose proof (Rabs_pos_lt s Hs).
  field. repeat split; lra.
Qed.

Lemma rescaled_series_coefficient_witness :
  exists s' i' r2',
    fit_linear (map (fun v => 2 * v + 7) [0; 1]) (map (fun v => 2 * v + 5) [1; 3]) =
      Return (NpFloat64 s', NpFloat64 i', r2') /\
    extract_D_num s' = 2 / Rabs 2 * extract_D_num 2.
Proof.
  exact (rescaled_series_coefficient [0; 1] [1; 3] 2 1 _ 2 7 2 5 (le_n 2) Rlt_0_2
           (Rgt_not_eq 2 0 Rlt_0_2) (Rgt_not_eq 2 0 Rlt_0_2) rising_fit).
Defined.

(** ** The sign of the slope, in exact arithmetic *)

Lemma cross_terms_nonpos (a b : R) (x y : list R) :
  List.length x = List.length y ->
  Forall (Rlt a) x -> Forall (Rgt b) y ->
  INR (List.length x) * a * b - a * Rsum y - b * Rsum x + Rsum (zip_mul x y) <= 0 /\
  (x <> [] ->
   INR (List.length x) * a * b - a * Rsum y - b * Rsum x + Rsum (zip_mul x y) < 0).
Proof.
  revert y. induction x as [|u x IH]; intros [|v y] Hlen Hx Hy;
    cbn [List.length] in Hlen; try discriminate.
  - cbn. split; [lra|congruence].
  - inversion Hx as [|? ? Hu Hx']; subst. inversion Hy as [|? ? Hv Hy']; subst.
    destruct (IH y ltac:(lia) Hx' Hy') as [IHle _].
    cbn [zip_mul List.length]. rewrite !Rsum_cons, S_INR. cbn [mul exact].
    assert (Huv : (a - u) * (b - v) < 0) by (unfold Rgt in Hv; nra).
    split; [|intros _]; nra.
Qed.

Lemma chebyshev_sum (x y : list R) :
  List.length x = List.length y ->
  StronglySorted Rlt x -> StronglySorted Rgt y ->
  INR (List.length x) * Rsum (zip_mul x y) - Rsum x * Rsum y <= 0 /\
  ((2 <= List.length x)%nat ->
   INR (List.length x) * Rsum (zip_mul x y) - Rsum x * Rsum y < 0).
Proof.
  revert y. induction x as [|u x IH]; intros [|v y] Hlen Hx Hy;
    cbn [List.length] in Hlen; try discriminate.
  - cbn. split; [lra|intros; lia].
  - inversion Hx as [|? ? Hx' Hu]; subst. inversion Hy as [|? ? Hy' Hv]; subst.
    destruct (IH y ltac:(lia) Hx' Hy') as [IHle _].
    destruct (cross_terms_nonpos u v x y ltac:(lia) Hu Hv) as [Hc Hc'].
    cbn [zip_mul List.length]. rewrite !Rsum_cons, S_INR. cbn [mul exact].
    split.
    + nra.
    + intros Hn. assert (Hxne : x <> []) by (destruct x; cbn in Hn; [lia|congruence]).
      specialize (Hc' Hxne). nra.
Qed.

(** A [y] of length 1 against two increasing [x] is fitted with slope 0:
    the sign of the slope needs as many [y] as [x]. *)
Lemma fit_linear_broadcast_flat :
  exists r2, fit_linear [0; 1] [5] = Return (NpFloat64 0, NpFloat64 5, r2).
Proof.
  rewrite (fit_linear_stretched [0; 1] [5] (le_n 2)). cbn [stretched List.length repeat].
  rewrite two_point_fit. replace (5 - 5) with 0 by ring. eexists. reflexivity.
Qed.

(** X8: when the thicknesses increase and the WVTR values, as many as
    the thicknesses, decrease along the series, the fitted slope is
    negative. *)
Theorem fit_linear_slope_negative (x y : list R) (s i : R) (r2 : value R) :
  (2 <= List.length x)%nat -> List.length x = List.length y ->
  StronglySorted Rlt x -> StronglySorted Rgt y ->
  fit_linear x y = Return (NpFloat64 s, NpFloat64 i, r2) ->
  s < 0.
Proof.
  intros Hlen Hsame Hsx Hsy Hfit.
  destruct (fit_linear_exact_cases x y s i r2 Hlen Hfit)
    as [(Hacc & Hs & _)|(c & -> & _)]; [|cbn [List.length] in Hsame; lia].
  destruct (accepted_inv x y Hlen Hacc) as (Hxy & Hx & Hg).
  pose proof (ssxm_pos x Hlen Hg) as Hv.
  pose proof (INR_length_pos x Hx) as Hn.
  destruct (chebyshev_sum x y Hxy Hsx Hsy) as [_ Hch]. specialize (Hch Hlen).
  assert (HC : ssxym_of x y < 0).
  { rewrite ssxym_raw by assumption.
    set (n := INR (List.length x)) in *.
    replace ((Rsum (zip_mul x y) - Rsum x * Rsum y / n) / n)
      with ((n * Rsum (zip_mul x y) - Rsum x * Rsum y) * (/ n * / n))
      by (field; lra).
    assert (0 < / n) by (apply Rinv_0_lt_compat; exact Hn).
    assert (0 < / n * / n) by (apply Rmult_lt_0_compat; assumption).
    nra. }
  rewrite Hs. unfold Rdiv.
  assert (0 < / ssxm_of x) by (apply Rinv_0_lt_compat; exact Hv).
  nra.
Qed.

Lemma fit_linear_slope_negative_witness : -2 < 0.
Proof.
  apply (fit_linear_slope_negative [0; 1] [3; 1] (-2) 3
           (py_square (rvalue_of [0; 1] [3; 1])) (le_n 2) eq_refl).
  - repeat constructor. exact Rlt_0_1.
  - repeat constructor. unfold Rgt. lra.
  - exact falling_fit.
Defined.

(** ** [extract_D] on binary64: exceptions, sign and NaN *)

Local Open Scope float_scope.

Lemma binary64_fit :
  fit_linear [0; 1] [1; 3] = Return (NpFloat64 2, NpFloat64 1, NpFloat64 1).
Proof. vm_compute. reflexivity. Qed.

(** X9: the only failure of [extract_D] is [ZeroDivisionError], and it
    occurs exactly when the slope is a Python float equal to zero. *)
Theorem extract_D_raises_iff (v : value float) (e : exn) :
  extract_D v = Raise e <->
  e = ZeroDivisionError /\ exists s, v = PyFloat s /\ (s =? 0) = true.
Proof.
  destruct v as [s|s].
  - rewrite extract_D_PyFloat. destruct (s =? 0) eqn:Hz; split.
    + intros He. injection He as <-. split; [reflexivity|]. exists s. split; [reflexivity|exact Hz].
    + intros [-> _]. reflexivity.
    + discriminate.
    + intros [_ (s' & Hs' & Hz')]. injection Hs' as <-. congruence.
  - rewrite extract_D_NpFloat64. split; [discriminate|].
    intros [_ (s' & Hs' & _)]. discriminate.
Qed.

Lemma SFeqb_refl_not_nan (x : spec_float) :
  SFeqb x x = match x with S754_nan => false | _ => true end.
Proof.
  destruct x as [[]|[]| |s m e]; try reflexivity.
  unfold SFeqb. rewrite SFcompare_refl_finite. reflexivity.
Qed.

Lemma is_nan_SF (x : float) :
  PrimFloat.is_nan x = match Prim2SF x with S754_nan => true | _ => false end.
Proof.
  unfold PrimFloat.is_nan. rewrite eqb_spec, SFeqb_refl_not_nan.
  destruct (Prim2SF x); reflexivity.
Qed.

Lemma extract_D_num_sign (s : float) :
  PrimFloat.is_nan (extract_D_num s) = PrimFloat.is_nan s /\
  (PrimFloat.is_nan s = false -> (0 <=? extract_D_num s) = true).
Proof.
  rewrite !is_nan_SF, leb_spec, extract_D_num_SF.
  change (Prim2SF 0) with (S754_zero false).
  pose proof (Prim2SF_valid s) as Hv.
  destruct (Prim2SF s) as [sg|sg| |sg m e]; cbn [SFabs].
  - split; [reflexivity|]. intros _. reflexivity.
  - split; [reflexivity|]. intros _. reflexivity.
  - split; [reflexivity|]. discriminate.
  - destruct (SFdiv_normal 5577935570279542 (-49) eq_refl ltac:(lia) false false m e Hv)
      as (mr & j & _ & _ & _ & _ & Hdiv).
    rewrite Hdiv. unfold overflow_or. cbn [xorb].
    destruct (_ <=? 971)%Z; split; reflexivity.
Qed.

(** X10: [extract_D] never returns a negative coefficient: the result is
    NaN exactly when the slope is NaN, and otherwise it is at least 0. *)
Theorem extract_D_never_negative (v d : value float) :
  extract_D v = Return d ->
  PrimFloat.is_nan (num d) = PrimFloat.is_nan (num v) /\
  (PrimFloat.is_nan (num v) = false -> (0 <=? num d) = true).
Proof.
  intros Hd.
  assert (Hnum : num d = extract_D_num (num v)).
  { destruct v as [s|s]; cbn [num].
    - rewrite extract_D_PyFloat in Hd. destruct (s =? 0); [discriminate|].
      injection Hd as <-. reflexivity.
    - rewrite extract_D_NpFloat64 in Hd. injection Hd as <-. reflexivity. }
  rewrite Hnum. apply extract_D_num_sign.
Qed.

Lemma extract_D_never_negative_witness :
  PrimFloat.is_nan (extract_D_num (2 : float)) = PrimFloat.is_nan (2 : float) /\
  (PrimFloat.is_nan (2 : float) = false -> (0 <=? extract_D_num (2 : float)) = true).
Proof.
  exact (extract_D_never_negative (NpFloat64 2) (NpFloat64 (extract_D_num (2 : float))) eq_refl).
Defined.

(** X11: the extraction never fails on a slope that comes out of a fit:
    the slope is a NumPy float64, so even a zero or NaN slope yields a
    float64 (inf or NaN) and no exception. *)
Theorem extract_D_after_fit (x y : list float) (s i r2 : value float) :
  fit_linear x y = Return (s, i, r2) ->
  exists d, extract_D s = Return (NpFloat64 d) /\
            PrimFloat.is_nan d = PrimFloat.is_nan (num s).
Proof.
  intros Hfit.
  destruct (fit_linear_Return_inv x y _ _ _ Hfit) as ((s' & ->) & _).
  rewrite extract_D_NpFloat64. eexists. split; [reflexivity|].
  apply extract_D_num_sign.
Qed.

Lemma extract_D_after_fit_witness :
  exists d, extract_D (NpFloat64 (2 : float)) = Return (NpFloat64 d) /\
            PrimFloat.is_nan d = PrimFloat.is_nan (2 : float).
Proof. exact (extract_D_after_fit [0; 1] [1; 3] _ _ _ binary64_fit). Defined.

(** ** Accuracy of the binary64 coefficient *)

Local Open Scope R_scope.

Lemma Rabs_float_value (s : float) sg m e :
  Prim2SF s = S754_finite sg m e -> Rabs (float_value s) = F2R (Zpos m) e.
Proof.
  intros Hs. unfold float_value. rewrite Hs.
  pose proof (F2R_pos m e) as Hp.
  destruct sg.
  - replace (-1 * F2R (Zpos m) e) with (- F2R (Zpos m) e) by ring.
    rewrite Rabs_Ropp. apply Rabs_pos_eq. lra.
  - rewrite Rmult_1_l. apply Rabs_pos_eq. lra.
Qed.

Lemma extract_D_num_exact (s : R) :
  extract_D_num s = 9908404 / 1000000 / Rabs s.
Proof.
  unfold extract_D_num, Mw, Ci, Co, dec.
  cbn [of_Z sub mul div absv exact].
  change (10 ^ 5)%Z with 100000%Z. change (10 ^ 1)%Z with 10%Z.
  change (10 ^ 2)%Z with 100%Z.
  unfold Rdiv. f_equal. lra.
Qed.

(** X12: for a finite nonzero slope whose coefficient does not overflow,
    the binary64 coefficient differs from the exact quotient
    18.01528 * 0.55 / |s| by at most a relative 2^-51. *)
Theorem extract_D_accuracy (s : float) :
  is_finite s = true -> (s =? 0)%float = false ->
  is_finite (extract_D_num s) = true ->
  Rabs (float_value (extract_D_num s) - extract_D_num (float_value s))
    <= extract_D_num (float_value s) / IZR (2 ^ 51).
Proof.
  intros Hfin Hnz Hres.
  rewrite is_finite_SF in Hfin, Hres. rewrite eqb_zero_SF in Hnz.
  pose proof (Prim2SF_valid s) as Hv.
  destruct (Prim2SF s) as [sg|sg| |sg m e] eqn:Hs; try discriminate.
  rewrite extract_D_num_exact, (Rabs_float_value s sg m e Hs).
  unfold float_value. rewrite extract_D_num_SF in *. rewrite Hs in *. cbn [SFabs] in *.
  destruct (SFdiv_normal 5577935570279542 (-49) eq_refl ltac:(lia) false false m e Hv)
    as (mr & j & Hj & Hmr & [Hlo Hhi] & _ & Hdiv).
  cbv zeta in *. set (d := Zpos (digits2_pos m)) in *.
  assert (Hd : (0 <= d)%Z) by (unfold d; lia).
  rewrite Hdiv in *. unfold overflow_or, xorb in *.
  set (E := (-49 - e - d + j)%Z) in *.
  destruct (E <=? 971)%Z; [|discriminate].
  rewrite Rmult_1_l.
  set (v := quotient 5577935570279542 (-49) (Zpos m) e).
  assert (Hup : 2 * v <= IZR (2 * Zpos mr + 1) * pw2 E).
  { apply (scale_ge 5577935570279542 (Zpos m) d j (-49) e); lia. }
  assert (Hdn : IZR (2 * Zpos mr - 1) * pw2 E <= 2 * v).
  { apply (scale_le 5577935570279542 (Zpos m) d j (-49) e); lia. }
  rewrite plus_IZR, mult_IZR in Hup. rewrite minus_IZR, mult_IZR in Hdn.
  unfold F2R at 1. set (P := pw2 E) in *.
  assert (HP : 0 < P) by apply pw2_pos.
  assert (Hm52 : 4503599627370496 <= IZR (Zpos mr)).
  { apply (IZR_le (2 ^ 52)). lia. }
  set (M := IZR (Zpos mr)) in *.
  pose proof (F2R_pos m e) as Hy. set (vy := F2R (Zpos m) e) in *.
  assert (Hcf : F2R 5577935570279542 (-49) = 5577935570279542 / 562949953421312).
  { unfold F2R. change (-49)%Z with (Z.opp 49). rewrite pw2_opp, pw2_IZR by lia.
    reflexivity. }
  set (t := 9908404 / 1000000 / vy).
  assert (Ht : 0 < t).
  { unfold t. apply Rdiv_lt_0_compat; [lra|exact Hy]. }
  assert (Hvt : v = 5577935570279542 / 562949953421312 / (9908404 / 1000000) * t).
  { unfold v, quotient, t. fold vy. rewrite Hcf. field. lra. }
  change (IZR (2 ^ 51)) with 2251799813685248.
  assert (HMP : 4503599627370496 * P <= M * P).
  { apply Rmult_le_compat_r; lra. }
  assert (Hup' : 2 * v <= 2 * (M * P) + P) by lra.
  assert (Hdn' : 2 * (M * P) - P <= 2 * v) by lra.
  set (R0 := M * P) in *. clearbody R0 v t. clear Hup Hdn.
  apply Rabs_le. lra.
Qed.

Lemma extract_D_accuracy_witness :
  (Rabs (float_value (extract_D_num (2 : float)) - extract_D_num (float_value 2))
   <= extract_D_num (float_value 2) / IZR (2 ^ 51))%R.
Proof. apply extract_D_accuracy; vm_compute; reflexivity. Defined.


(** ** R² in binary64 *)

Local Open Scope Z_scope.

Lemma shr_1_m rec : 0 <= shr_m rec -> shr_m (shr_1 rec) = shr_m rec / 2.
Proof.
  destruct rec as [m r s]. cbn [shr_m]. intros Hm.
  destruct (Z.eq_dec m 0) as [->|Hnz]; [reflexivity|].
  rewrite shr_1_pos by lia. reflexivity.
Qed.

Lemma iter_pos_shr_1_m p : forall rec, 0 <= shr_m rec ->
  shr_m (SpecFloat.iter_pos shr_1 p rec) = shr_m rec / 2 ^ Zpos p.
Proof.
  induction p as [p IH|p IH|]; intros rec Hm; cbn [SpecFloat.iter_pos].
  - assert (H1 : 0 <= shr_m (shr_1 rec)).
    { rewrite shr_1_m by assumption. apply Z.div_pos; lia. }
    assert (H2 : 0 <= shr_m (SpecFloat.iter_pos shr_1 p (shr_1 rec))).
    { rewrite IH by assumption. apply Z.div_pos; lia. }
    rewrite IH, IH, shr_1_m by assumption.
    assert (Hpow : 2 ^ Zpos p~1 = 2 * (2 ^ Zpos p * 2 ^ Zpos p)).
    { rewrite (Pos2Z.inj_xI p). replace (2 * Zpos p + 1) with (1 + (Zpos p + Zpos p)) by lia.
      rewrite !Z.pow_add_r by lia. reflexivity. }
    assert (0 < 2 ^ Zpos p) by (apply Z.pow_pos_nonneg; lia).
    rewrite !Z.div_div by lia. rewrite Hpow. reflexivity.
  - assert (H2 : 0 <= shr_m (SpecFloat.iter_pos shr_1 p rec)).
    { rewrite IH by assumption. apply Z.div_pos; lia. }
    rewrite IH, IH by assumption.
    assert (Hpow : 2 ^ Zpos p~0 = 2 ^ Zpos p * 2 ^ Zpos p).
    { rewrite (Pos2Z.inj_xO p). replace (2 * Zpos p) with (Zpos p + Zpos p) by lia.
      rewrite Z.pow_add_r by lia. reflexivity. }
    assert (0 < 2 ^ Zpos p) by (apply Z.pow_pos_nonneg; lia).
    rewrite !Z.div_div by lia. rewrite Hpow. reflexivity.
  - rewrite shr_1_m by assumption. reflexivity.
Qed.

(** The first shift of [binary_round_aux] on a number below [2^0]. *)
Lemma shr_fexp_small q ex l :
  0 < q -> Zdigits2 q + ex <= 0 -> ex <= -53 ->
  exists mrs e0, shr_fexp prec emax q ex l = (mrs, e0) /\
    0 <= shr_m mrs < 2 ^ 53 /\ -1074 <= e0 <= -53.
Proof.
  intros Hq Hd Hex. destruct q as [|q|q]; try lia.
  pose proof (digits2_pos_bounds q) as Hb.
  unfold shr_fexp, shr, Zdigits2 in *.
  set (dq := Zpos (digits2_pos q)) in *.
  unfold fexp, SpecFloat.emin, prec, emax.
  change (3 - 1024 - 53) with (-1074).
  destruct (Z.max (dq + ex - 53) (-1074) - ex) as [|p|p] eqn:Hn.
  - eexists _, _. split; [reflexivity|]. rewrite shr_m_record_of_loc.
    assert (Hle : dq <= 53) by lia.
    assert (2 ^ dq <= 2 ^ 53) by (apply Z.pow_le_mono_r; lia). lia.
  - eexists _, _. split; [reflexivity|].
    rewrite iter_pos_shr_1_m by (rewrite shr_m_record_of_loc; lia).
    rewrite shr_m_record_of_loc. split; [|lia]. split; [apply Z.div_pos; lia|].
    apply Z.div_lt_upper_bound; [lia|].
    rewrite <- Z.pow_add_r by lia.
    assert (2 ^ dq <= 2 ^ (Zpos p + 53)) by (apply Z.pow_le_mono_r; lia). lia.
  - eexists _, _. split; [reflexivity|]. rewrite shr_m_record_of_loc.
    assert (Hle : dq <= 53) by lia.
    assert (2 ^ dq <= 2 ^ 53) by (apply Z.pow_le_mono_r; lia). lia.
Qed.

Lemma round_nearest_even_range m l :
  m <= round_nearest_even m l <= m + 1.
Proof. destruct l as [|[]]; cbn; try destruct (Z.even m); lia. Qed.

Lemma finish_small m1 e0 :
  0 <= m1 <= 2 ^ 53 -> -1074 <= e0 <= -53 -> at_most_one (finish false m1 e0).
Proof.
  intros Hm He. unfold finish.
  destruct (Z.eq_dec m1 (2 ^ 53)) as [->|Hne].
  - rewrite shr_fexp_54 by lia. cbn [shr_record_of_loc].
    rewrite shr_1_pos by lia. cbn [shr_m].
    change (2 ^ 53 / 2) with 4503599627370496.
    destruct (Z.leb_spec (e0 + 1) (emax - prec)) as [_|Hgt];
      [|unfold emax, prec in Hgt; lia].
    split; [reflexivity|]. unfold SFleb, SFcompare.
    destruct (Z.compare_spec (e0 + 1) (-52)) as [_|_|Hgt]; try reflexivity. lia.
  - destruct m1 as [|m|m]; try lia.
    + unfold shr_fexp, shr. cbn [Zdigits2].
      unfold fexp, SpecFloat.emin, prec, emax.
      destruct (Z.max (0 + e0 - 53) (3 - 1024 - 53) - e0) eqn:Hn; try lia;
        split; reflexivity.
    + pose proof (digits2_pos_bounds m) as Hb.
      assert (Hd : Zpos (digits2_pos m) <= 53).
      { destruct (Z_le_gt_dec (Zpos (digits2_pos m)) 53) as [Hle|Hgt]; [exact Hle|].
        assert (2 ^ 53 <= 2 ^ (Zpos (digits2_pos m) - 1)) by (apply Z.pow_le_mono_r; lia).
        lia. }
      unfold shr_fexp, shr. cbn [Zdigits2].
      unfold fexp, SpecFloat.emin, prec, emax.
      destruct (Z.max (Zpos (digits2_pos m) + e0 - 53) (3 - 1024 - 53) - e0) eqn:Hn;
        try lia; cbn [shr_record_of_loc shr_m];
        (destruct (Z.leb_spec e0 (1024 - 53)) as [_|Hgt]; [|lia]);
        (split; [reflexivity|]); unfold SFleb, SFcompare;
        (destruct (Z.compare_spec e0 (-52)) as [Heq|_|Hgt]; try reflexivity; lia).
Qed.

Lemma square_digits m :
  Zpos (digits2_pos (m * m)) <= 2 * Zpos (digits2_pos m).
Proof.
  pose proof (digits2_pos_bounds m) as Hm.
  pose proof (digits2_pos_bounds (m * m)) as Hq.
  set (d := Zpos (digits2_pos m)) in *. set (dq := Zpos (digits2_pos (m * m))) in *.
  destruct (Z_le_gt_dec dq (2 * d)) as [Hle|Hgt]; [exact Hle|exfalso].
  assert (H1 : 2 ^ (2 * d) <= 2 ^ (dq - 1)) by (apply Z.pow_le_mono_r; lia).
  replace (2 * d) with (d + d) in H1 by ring.
  rewrite Z.pow_add_r in H1 by (unfold d; lia).
  rewrite Pos2Z.inj_mul in Hq. nia.
Qed.

(** The square of a binary64 number between -1 and 1 is between 0 and 1. *)
Lemma SFmul_square_unit (x : spec_float) :
  valid_binary x = true ->
  SFltb (S754_finite false 4503599627370496 (-52)) x = false ->
  SFltb x (S754_finite true 4503599627370496 (-52)) = false ->
  x <> S754_nan ->
  at_most_one (SFmul prec emax x x).
Proof.
  intros Hv Hhi Hlo Hnan.
  destruct x as [sg|sg| |sg m e].
  - destruct sg; split; reflexivity.
  - destruct sg; discriminate.
  - congruence.
  - destruct (bounded_inv m e Hv) as (Hd & He & Hor).
    assert (Hrange : e <= -53 \/ (e = -52 /\ Zpos m = 4503599627370496)).
    { pose proof (digits2_pos_bounds m) as Hb.
      remember 4503599627370496%positive as c eqn:Hc.
      unfold SFltb, SFcompare in Hhi, Hlo.
      destruct (Z.lt_trichotomy e (-52)) as [Hlt|[Heq|Hgt]].
      - left. lia.
      - right. split; [exact Heq|]. subst e.
        assert (Hd53 : Zpos (digits2_pos m) = 53) by lia.
        rewrite Hd53 in Hb. change (2 ^ (53 - 1)) with 4503599627370496 in Hb.
        rewrite Z.compare_refl in Hhi, Hlo.
        assert (Hle : Zpos m <= Zpos c).
        { destruct sg.
          - change (Pos.compare_cont Eq m c) with (Pos.compare m c) in Hlo.
            destruct (Pos.compare_spec m c) as [Heq|Hlt|Hgt]; cbn in Hlo;
              try discriminate.
            + subst m. apply Z.le_refl.
            + apply Z.lt_le_incl, Pos2Z.pos_lt_pos. exact Hlt.
          - change (Pos.compare_cont Eq c m) with (Pos.compare c m) in Hhi.
            destruct (Pos.compare_spec c m) as [Heq|Hlt|Hgt]; cbn in Hhi;
              try discriminate.
            + subst m. apply Z.le_refl.
            + apply Z.lt_le_incl, Pos2Z.pos_lt_pos. exact Hgt. }
        clear Hhi Hlo. subst c. lia.
      - exfalso. destruct sg.
        + assert (Hcmp : (e ?= -52) = Gt) by (apply Z.compare_gt_iff; lia).
          rewrite Hcmp in Hlo. discriminate.
        + assert (Hcmp : (-52 ?= e) = Lt) by (apply Z.compare_lt_iff; lia).
          rewrite Hcmp in Hhi. discriminate. }
    destruct Hrange as [Hsmall|[-> Hm]].
    + unfold SFmul. replace (xorb sg sg) with false by (destruct sg; reflexivity).
      rewrite binary_round_aux_finish.
      pose proof (square_digits m) as Hsq.
      destruct (shr_fexp_small (Zpos (m * m)) (e + e) loc_Exact)
        as (mrs & e0 & Hshr & Hm0 & He0); try (cbn [Zdigits2]; lia).
      rewrite Hshr.
      pose proof (round_nearest_even_range (shr_m mrs) (loc_of_shr_record mrs)).
      apply finish_small; lia.
    + apply Pos2Z.inj in Hm. subst m. destruct sg; split; vm_compute; reflexivity.
Qed.

Local Open Scope float_scope.

Lemma square_unit (r : float) :
  (1 <? r) = false -> (r <? -1) = false -> PrimFloat.is_nan r = false ->
  (0 <=? r * r) = true /\ (r * r <=? 1) = true.
Proof.
  rewrite !ltb_spec, !leb_spec, mul_spec, is_nan_SF.
  change (Prim2SF 1) with (S754_finite false 4503599627370496 (-52)).
  change (Prim2SF (-1)) with (S754_finite true 4503599627370496 (-52)).
  change (Prim2SF 0) with (S754_zero false).
  intros Hhi Hlo Hnan.
  apply (SFmul_square_unit (Prim2SF r)); try assumption.
  - apply Prim2SF_valid.
  - intros Heq. rewrite Heq in Hnan. discriminate.
Qed.

(** X13: whenever [fit_linear] returns, in binary64 and for every series,
    the R² it returns is NaN or lies between 0 and 1: the correlation
    coefficient is clamped to [-1, 1] and its rounded square cannot
    exceed 1. *)
Theorem fit_linear_r_squared_binary64 (x y : list float) (s i r2 : value float) :
  fit_linear x y = Return (s, i, r2) ->
  PrimFloat.is_nan (num r2) = true \/
  ((0 <=? num r2) = true /\ (num r2 <=? 1) = true).
Proof.
  intros Hfit.
  destruct (fit_linear_Return_inv x y _ _ _ Hfit) as (_ & [->|(x' & y' & ->)]);
    [left; vm_compute; reflexivity|].
  unfold rvalue_of.
  destruct (_ || _)%bool.
  - destruct (ssxym_of x' y' =? of_Z 0)%sc.
    + left. vm_compute. reflexivity.
    + right. split; vm_compute; reflexivity.
  - cbv zeta.
    set (r := (ssxym_of x' y' / sqrtv (ssxm_of x' * ssym_of x' y'))%sc).
    destruct (of_Z 1 <? r)%sc eqn:Hhi.
    + right. split; reflexivity.
    + destruct (r <? of_Z (-1))%sc eqn:Hlo.
      * right. split; reflexivity.
      * cbn [py_square num].
        destruct (PrimFloat.is_nan r) eqn:Hnan.
        -- left. rewrite is_nan_SF in *. cbn [mul binary64]. rewrite mul_spec.
           destruct (Prim2SF r); try discriminate. reflexivity.
        -- right. apply square_unit; assumption.
Qed.

Lemma fit_linear_r_squared_binary64_witness :
  PrimFloat.is_nan 1 = true \/ ((0 <=? 1) = true /\ (1 <=? 1) = true).
Proof.
  exact (fit_linear_r_squared_binary64 [0; 1] [1; 3] _ _ (NpFloat64 1) binary64_fit).
Defined.

(** ** The sampled fit lines *)

Section SampledFit.

Context {T : Type} `{Scalar T}.
Local Open Scope scalar_scope.






End SampledFit.

Local Open Scope R_scope.


Lemma fold_maximum_bounds (l : list R) : forall a,
  a <= fold_left np_maximum l a /\
  Forall (fun v => v <= fold_left np_maximum l a) l.
Proof.
  induction l as [|b l IH]; intros a; cbn [fold_left].
  - split; [lra|constructor].
  - destruct (IH (np_maximum a b)) as [H1 H2].
    rewrite np_maximum_exact in *.
    pose proof (Rmax_l a b). pose proof (Rmax_r a b).
    split; [lra|]. constructor; [lra|exact H2].
Qed.

Lemma fold_minimum_bounds (l : list R) : forall a,
  fold_left np_minimum l a <= a /\
  Forall (fun v => fold_left np_minimum l a <= v) l.
Proof.
  induction l as [|b l IH]; intros a; cbn [fold_left].
  - split; [lra|constructor].
  - destruct (IH (np_minimum a b)) as [H1 H2].
    rewrite np_minimum_exact in *.
    pose proof (Rmin_l a b). pose proof (Rmin_r a b).
    split; [lra|]. constructor; [lra|exact H2].
Qed.

(** In exact arithmetic [amin] and [amax] bound every element. *)
Lemma amin_amax_bounds (x : list R) :
  Forall (fun v => amin x <= v <= amax x) x.
Proof.
  destruct x as [|a l]; [constructor|].
  unfold amin, amax, reduce.
  destruct (fold_minimum_bounds l a) as [H1 H2].
  destruct (fold_maximum_bounds l a) as [H3 H4].
  constructor; [lra|].
  rewrite Forall_forall in *. intros v Hv. split; [apply H2|apply H4]; exact Hv.
Qed.








(** ** The order of the data points, in exact arithmetic *)

Local Open Scope R_scope.

Lemma Rsum_Permutation (l l' : list R) : Permutation l l' -> Rsum l = Rsum l'.
Proof.
  induction 1 as [|a l l' _ IH|a b l|l l' l'' _ IH1 _ IH2];
    rewrite ?Rsum_cons; lra.
Qed.

Lemma map_fst_combine (x y : list R) :
  List.length x = List.length y -> map fst (combine x y) = x.
Proof.
  revert y. induction x as [|a x IH]; intros [|b y] Hl; cbn in *; try congruence.
  f_equal. apply IH. lia.
Qed.

Lemma map_snd_combine (x y : list R) :
  List.length x = List.length y -> map snd (combine x y) = y.
Proof.
  revert y. induction x as [|a x IH]; intros [|b y] Hl; cbn in *; try congruence.
  f_equal. apply IH. lia.
Qed.

Lemma zip_mul_combine (f g : R -> R) (x y : list R) :
  zip_mul (map f x) (map g y) =
  map (fun p => (f (fst p) * g (snd p))%sc) (combine x y).
Proof.
  revert y. induction x as [|a x IH]; intros [|b y]; cbn [map zip_mul combine];
    try reflexivity.
  rewrite IH. reflexivity.
Qed.

Lemma fold_maximum_In (l : list R) : forall a,
  In (fold_left np_maximum l a) (a :: l).
Proof.
  induction l as [|b l IH]; intros a; cbn [fold_left].
  - left. reflexivity.
  - destruct (IH (np_maximum a b)) as [Heq|Hin].
    + rewrite <- Heq. rewrite np_maximum_exact. unfold Rmax.
      destruct (Rle_dec a b); [right; left|left]; reflexivity.
    + right. right. exact Hin.
Qed.

Lemma fold_minimum_In (l : list R) : forall a,
  In (fold_left np_minimum l a) (a :: l).
Proof.
  induction l as [|b l IH]; intros a; cbn [fold_left].
  - left. reflexivity.
  - destruct (IH (np_minimum a b)) as [Heq|Hin].
    + rewrite <- Heq. rewrite np_minimum_exact. unfold Rmin.
      destruct (Rle_dec a b); [left|right; left]; reflexivity.
    + right. right. exact Hin.
Qed.

Lemma amax_Permutation (x x' : list R) : Permutation x x' -> amax x = amax x'.
Proof.
  intros Hp. destruct x as [|a l].
  - apply Permutation_nil in Hp. subst. reflexivity.
  - destruct x' as [|a' l'].
    + apply Permutation_sym, Permutation_nil in Hp. discriminate.
    + pose proof (amin_amax_bounds (a :: l)) as Hb.
      pose proof (amin_amax_bounds (a' :: l')) as Hb'.
      rewrite Forall_forall in Hb, Hb'.
      pose proof (fold_maximum_In l a) as Hi. pose proof (fold_maximum_In l' a') as Hi'.
      change (fold_left np_maximum l a) with (amax (a :: l)) in Hi.
      change (fold_left np_maximum l' a') with (amax (a' :: l')) in Hi'.
      apply (Permutation_in _ Hp) in Hi.
      apply (Permutation_in _ (Permutation_sym Hp)) in Hi'.
      pose proof (Hb' _ Hi). pose proof (Hb _ Hi'). lra.
Qed.

Lemma amin_Permutation (x x' : list R) : Permutation x x' -> amin x = amin x'.
Proof.
  intros Hp. destruct x as [|a l].
  - apply Permutation_nil in Hp. subst. reflexivity.
  - destruct x' as [|a' l'].
    + apply Permutation_sym, Permutation_nil in Hp. discriminate.
    + pose proof (amin_amax_bounds (a :: l)) as Hb.
      pose proof (amin_amax_bounds (a' :: l')) as Hb'.
      rewrite Forall_forall in Hb, Hb'.
      pose proof (fold_minimum_In l a) as Hi. pose proof (fold_minimum_In l' a') as Hi'.
      change (fold_left np_minimum l a) with (amin (a :: l)) in Hi.
      change (fold_left np_minimum l' a') with (amin (a' :: l')) in Hi'.
      apply (Permutation_in _ Hp) in Hi.
      apply (Permutation_in _ (Permutation_sym Hp)) in Hi'.
      pose proof (Hb' _ Hi). pose proof (Hb _ Hi'). lra.
Qed.

Lemma mean_Permutation (x x' : list R) : Permutation x x' -> mean x = mean x'.
Proof.
  intros Hp. rewrite !mean_Rsum, (Rsum_Permutation _ _ Hp), (Permutation_length Hp).
  reflexivity.
Qed.

Lemma size_Permutation (x x' : list R) : Permutation x x' -> size x = size x'.
Proof. intros Hp. unfold size. rewrite (Permutation_length Hp). reflexivity. Qed.

Lemma dot_center_Permutation (x y x' y' : list R) :
  Permutation x x' -> Permutation y y' ->
  Permutation (combine x y) (combine x' y') ->
  dot (center x) (center y) = dot (center x') (center y').
Proof.
  intros Hx Hy Hp. unfold center. cbv zeta.
  rewrite <- (mean_Permutation _ _ Hx), <- (mean_Permutation _ _ Hy).
  rewrite !dot_Rsum, !zip_mul_combine.
  apply Rsum_Permutation, Permutation_map. exact Hp.
Qed.

Lemma combine_self_Permutation (x x' : list R) :
  Permutation x x' -> Permutation (combine x x) (combine x' x').
Proof.
  intros Hp.
  assert (Hc : forall l : list R, combine l l = map (fun v => (v, v)) l).
  { induction l as [|a l IH]; cbn [combine map]; [reflexivity|]. rewrite IH. reflexivity. }
  rewrite !Hc. apply Permutation_map. exact Hp.
Qed.

(** Two sequences of real numbers of the same length: few points give
    the result made of NaN, the others go to the regression proper. *)
Lemma linregress_same_length (x y : list R) :
  List.length x = List.length y ->
  linregress x y = if too_small x then Return nan_result else linregress_body x y.
Proof.
  intros Hl. unfold linregress, broadcast_arrays.
  rewrite Hl, Nat.eqb_refl. cbn [bind]. rewrite !contains_nan_exact. cbn [orb].
  replace (too_small y) with (too_small x) by (unfold too_small, size; rewrite Hl; reflexivity).
  destruct (too_small x); reflexivity.
Qed.

(** X17: in exact arithmetic the result of [fit_linear], value or
    exception, does not depend on the order in which the data points
    are listed. *)
Theorem fit_linear_permutation (x y x' y' : list R) :
  List.length x = List.length y -> List.length x' = List.length y' ->
  Permutation (combine x y) (combine x' y') ->
  fit_linear x' y' = fit_linear x y.
Proof.
  intros Hl Hl' Hp.
  assert (Hx : Permutation x x').
  { rewrite <- (map_fst_combine x y Hl), <- (map_fst_combine x' y' Hl').
    apply Permutation_map. exact Hp. }
  assert (Hy : Permutation y y').
  { rewrite <- (map_snd_combine x y Hl), <- (map_snd_combine x' y' Hl').
    apply Permutation_map. exact Hp. }
  unfold fit_linear.
  rewrite (linregress_same_length x y Hl), (linregress_same_length x' y' Hl').
  unfold too_small. rewrite <- (size_Permutation _ _ Hx).
  destruct (size x <=? 1)%Z; [reflexivity|].
  unfold linregress_body, cov_bias. cbv zeta.
  rewrite <- (dot_center_Permutation x x x' x' Hx Hx (combine_self_Permutation _ _ Hx)).
  rewrite <- (dot_center_Permutation y y y' y' Hy Hy (combine_self_Permutation _ _ Hy)).
  rewrite <- (dot_center_Permutation x y x' y' Hx Hy Hp).
  rewrite <- (mean_Permutation _ _ Hx), <- (mean_Permutation _ _ Hy).
  rewrite <- (amax_Permutation _ _ Hx), <- (amin_Permutation _ _ Hx).
  rewrite <- (size_Permutation _ _ Hx), <- (size_Permutation _ _ Hy).
  reflexivity.
Qed.

Lemma fit_linear_permutation_witness :
  fit_linear [1; 0] [3; 1] = fit_linear [0; 1] [1; 3].
Proof.
  apply fit_linear_permutation; [reflexivity|reflexivity|].
  apply (perm_swap (1, 3) (0, 1) []).
Defined.
